(** * mautrix-whatsapp: puppet persistence and activity tracking

    A shallow embedding of [database/puppet.go] (the Puppet query object) and
    of the bridge orchestrator ([WABridge.StartUsers],
    [WABridge.UpdateActivePuppetCount]), together with the properties the
    design document states about them.

    Go values are modelled as follows:
    - [int64], [uint] and [int8] are integers of [Z] with the wrap-around of
      every arithmetic operation written out ([Int.wrap64], [Int.wrapU],
      [Int.wrap8]);
    - Go strings are [string] (sequences of bytes);
    - nullable SQL columns and the [sql.Null*] scan targets are [option];
    - the database handle, the fault behaviour of the driver, the wall clock
      and the logger form the [World] threaded through a state monad. *)

From Stdlib Require Import ZArith List String Ascii Bool Lia.
From Stdlib Require Import Permutation.
Import ListNotations.

Local Open Scope string_scope.
Local Open Scope Z_scope.

(** ** Machine integers *)

Module Int.

(** Two's complement reduction to [int64]. *)
Definition wrap64 (z : Z) : Z := (z + 2 ^ 63) mod 2 ^ 64 - 2 ^ 63.

(** Reduction to [uint] (64 bits on the platforms the bridge is built for). *)
Definition wrapU (z : Z) : Z := z mod 2 ^ 64.

(** Two's complement reduction to [int8]. *)
Definition wrap8 (z : Z) : Z := (z + 2 ^ 7) mod 2 ^ 8 - 2 ^ 7.

Definition is_int64 (z : Z) : Prop := - 2 ^ 63 <= z < 2 ^ 63.
Definition is_uint (z : Z) : Prop := 0 <= z < 2 ^ 64.
Definition is_int8 (z : Z) : Prop := - 2 ^ 7 <= z < 2 ^ 7.

(** [a - b] on [int64]. *)
Definition sub64 (a b : Z) : Z := wrap64 (a - b).

(** [n++] on [uint]. *)
Definition incrU (n : Z) : Z := wrapU (n + 1).

End Int.

(** ** Strings *)

Module strings.

(** [s[n:]] *)
Fixpoint drop (n : nat) (s : string) : string :=
  match n, s with
  | O, _ => s
  | S _, EmptyString => EmptyString
  | S n', String _ s' => drop n' s'
  end.

(** [s[:n]] *)
Fixpoint take (n : nat) (s : string) : string :=
  match n, s with
  | O, _ => EmptyString
  | S _, EmptyString => EmptyString
  | S n', String a s' => String a (take n' s')
  end.

(** [strings.HasPrefix(s, p)] *)
Fixpoint HasPrefix (s p : string) : bool :=
  match p, s with
  | EmptyString, _ => true
  | String _ _, EmptyString => false
  | String b p', String a s' => Ascii.eqb a b && HasPrefix s' p'
  end.

(** [strings.IndexRune(s, c)] for a one-byte rune; [None] stands for -1. *)
Fixpoint IndexRune (s : string) (c : ascii) : option nat :=
  match s with
  | EmptyString => None
  | String a s' =>
      if Ascii.eqb a c then Some O else option_map S (IndexRune s' c)
  end.

End strings.

(** ** [go.mau.fi/whatsmeow/types]: remote identifiers

    The library is not part of the repository; the fragment used by
    [puppet.go] and [StartUsers] is modelled here. *)

Module types.

Record JID := mkJID {
  User : string;
  RawAgent : Z;
  Device : Z;
  Integrator : Z;
  Server : string
}.

Definition DefaultUserServer : string := "s.whatsapp.net".
Definition GroupServer : string := "g.us".
Definition BroadcastServer : string := "broadcast".

(** [types.NewJID(user, server)]: only the user and server parts are set. *)
Definition NewJID (user server : string) : JID :=
  {| User := user; RawAgent := 0; Device := 0; Integrator := 0;
     Server := server |}.

(** [jid.IsEmpty()]: a JID without a server. *)
Definition IsEmpty (jid : JID) : bool := (String.length (Server jid) =? 0)%nat.

Definition EmptyJID : JID := NewJID "" "".

End types.

(** ** [mautrix/id]: content URIs (outside the repository) *)

Module id.

Record ContentURI := mkContentURI {
  Homeserver : string;
  FileID : string
}.

Definition emptyContentURI : ContentURI :=
  {| Homeserver := ""; FileID := "" |}.

(** [uri.IsEmpty()] *)
Definition IsEmpty (uri : ContentURI) : bool :=
  (String.length (Homeserver uri) =? 0)%nat
  || (String.length (FileID uri) =? 0)%nat.

(** [uri.String()] *)
Definition String_ (uri : ContentURI) : string :=
  if IsEmpty uri then ""
  else "mxc://" ++ Homeserver uri ++ "/" ++ FileID uri.

(** [id.ParseContentURI(uri)]: the parsed value and whether an error was
    returned. On error the zero value is returned. *)
Definition ParseContentURI (uri : string) : ContentURI * bool :=
  if (String.length uri =? 0)%nat then (emptyContentURI, false)
  else if negb (strings.HasPrefix uri "mxc://") then (emptyContentURI, true)
  else
    match strings.IndexRune (strings.drop 6 uri) "/"%char with
    | None => (emptyContentURI, true)
    | Some index =>
        if (index =? String.length uri - 7)%nat then (emptyContentURI, true)
        else ({| Homeserver := strings.take index (strings.drop 6 uri);
                 FileID := strings.drop (6 + index + 1) uri |}, false)
    end.

End id.

(** ** [time]: instants (Go standard library)

    A [Time] is modelled by the instant it denotes: whole seconds since
    January 1 of year 1 (UTC) and the nanoseconds within the second. The
    location and the monotonic reading of Go's representation are left out,
    so equality here is equality of instants. *)

Module time.

Record Time := mkTime {
  sec : Z;
  nsec : Z
}.

(** Seconds between January 1 of year 1 and the Unix epoch. *)
Definition unixToInternal : Z :=
  (1969 * 365 + 1969 / 4 - 1969 / 100 + 1969 / 400) * 86400.

(** The zero value of [time.Time]. *)
Definition zero : Time := {| sec := 0; nsec := 0 |}.

(** [t.IsZero()] *)
Definition IsZero (t : Time) : bool := (sec t =? 0) && (nsec t =? 0).

(** [t.Unix()] *)
Definition Unix_of (t : Time) : Z := sec t - unixToInternal.

(** [time.Unix(sec, nsec)]; nanoseconds outside [0, 1e9) carry into the
    seconds. Go's [/] truncates towards zero. *)
Definition Unix (s ns : Z) : Time :=
  if (ns <? 0) || (ns >=? 1000000000) then
    let n := Z.quot ns 1000000000 in
    let s := s + n in
    let ns := ns - n * 1000000000 in
    if ns <? 0 then {| sec := s - 1 + unixToInternal; nsec := ns + 1000000000 |}
    else {| sec := s + unixToInternal; nsec := ns |}
  else {| sec := s + unixToInternal; nsec := ns |}.

End time.

(** ** [database]: the puppet table and its query object ([puppet.go]) *)

Module database.

(** *** The relational store

    One row of the [puppet] table. [username] is the primary key; every
    other column is nullable. *)

Record Row := mkRow {
  username : string;
  avatar : option string;
  avatar_url : option string;
  avatar_set : option bool;
  displayname : option string;
  name_quality : option Z;
  name_set : option bool;
  contact_info_set : option bool;
  last_sync : option Z;
  custom_mxid : option string;
  access_token : option string;
  next_batch : option string;
  enable_presence : option bool;
  enable_receipts : option bool;
  first_activity_ts : option Z;
  last_activity_ts : option Z
}.

Definition Table := list Row.

Inductive error :=
| ErrNoRows          (* sql.ErrNoRows *)
| ErrUniqueViolation (* primary key already present *)
| ErrDriver.         (* any failure of the connection or the driver *)

Inductive Level := DebugLevel | WarnLevel.

Definition LogLine : Type := Level * string.

(** The environment of the query object: the table, the outcome of the
    coming calls to the driver ([true]: the call fails; an exhausted list
    means no further failure), the wall clock (the reading of the [k]-th
    call to [time.Now().Unix()]) with the number of readings taken, and the
    lines logged so far. *)
Record World := mkWorld {
  puppet_table : Table;
  faults : list bool;
  clock : nat -> Z;
  ticks : nat;
  journal : list LogLine
}.

(** *** State monad over the world *)

Definition M (A : Type) : Type := World -> A * World.

Definition ret {A} (a : A) : M A := fun w => (a, w).

Definition bind {A B} (m : M A) (k : A -> M B) : M B :=
  fun w => let (a, w') := m w in k a w'.

Declare Scope m_scope.
Delimit Scope m_scope with M.
Notation "x <- m ;; k" := (bind m (fun x => k))
  (at level 61, m at next level, right associativity) : m_scope.
Notation "m ;;; k" := (bind m (fun _ => k))
  (at level 61, right associativity) : m_scope.
Local Open Scope m_scope.

Definition Log (lvl : Level) (msg : string) : M unit :=
  fun w => (tt, {| puppet_table := puppet_table w; faults := faults w;
                   clock := clock w; ticks := ticks w;
                   journal := journal w ++ [(lvl, msg)] |}).

(** [time.Now().Unix()] *)
Definition time_Now_Unix : M Z :=
  fun w => (clock w (ticks w),
            {| puppet_table := puppet_table w; faults := faults w;
               clock := clock w; ticks := S (ticks w);
               journal := journal w |}).

(** Whether the coming call to the driver fails. *)
Definition next_fault : M bool :=
  fun w => (hd false (faults w),
            {| puppet_table := puppet_table w; faults := tl (faults w);
               clock := clock w; ticks := ticks w; journal := journal w |}).

Definition get_table : M Table := fun w => (puppet_table w, w).

Definition put_table (t : Table) : M unit :=
  fun w => (tt, {| puppet_table := t; faults := faults w; clock := clock w;
                   ticks := ticks w; journal := journal w |}).

(** *** The Puppet object *)

Record Puppet := mkPuppet {
  JID : types.JID;
  Avatar : string;
  AvatarURL : id.ContentURI;
  AvatarSet : bool;
  Displayname : string;
  NameQuality : Z;
  NameSet : bool;
  ContactInfoSet : bool;
  LastSync : time.Time;
  CustomMXID : string;
  AccessToken : string;
  NextBatch : string;
  EnablePresence : bool;
  EnableReceipts : bool;
  FirstActivityTs : Z;
  LastActivityTs : Z
}.

Definition newPuppet : Puppet :=
  {| JID := types.EmptyJID; Avatar := ""; AvatarURL := id.emptyContentURI;
     AvatarSet := false; Displayname := ""; NameQuality := 0;
     NameSet := false; ContactInfoSet := false; LastSync := time.zero;
     CustomMXID := ""; AccessToken := ""; NextBatch := "";
     EnablePresence := true; EnableReceipts := true;
     FirstActivityTs := 0; LastActivityTs := 0 |}.

Definition set_LastActivityTs (ts : Z) (p : Puppet) : Puppet :=
  {| JID := JID p; Avatar := Avatar p; AvatarURL := AvatarURL p;
     AvatarSet := AvatarSet p; Displayname := Displayname p;
     NameQuality := NameQuality p; NameSet := NameSet p;
     ContactInfoSet := ContactInfoSet p; LastSync := LastSync p;
     CustomMXID := CustomMXID p; AccessToken := AccessToken p;
     NextBatch := NextBatch p; EnablePresence := EnablePresence p;
     EnableReceipts := EnableReceipts p;
     FirstActivityTs := FirstActivityTs p; LastActivityTs := ts |}.

Definition set_FirstActivityTs (ts : Z) (p : Puppet) : Puppet :=
  {| JID := JID p; Avatar := Avatar p; AvatarURL := AvatarURL p;
     AvatarSet := AvatarSet p; Displayname := Displayname p;
     NameQuality := NameQuality p; NameSet := NameSet p;
     ContactInfoSet := ContactInfoSet p; LastSync := LastSync p;
     CustomMXID := CustomMXID p; AccessToken := AccessToken p;
     NextBatch := NextBatch p; EnablePresence := EnablePresence p;
     EnableReceipts := EnableReceipts p;
     FirstActivityTs := ts; LastActivityTs := LastActivityTs p |}.

(** *** Statements

    The positional arguments of [insertPuppetQuery] and
    [updatePuppetQuery], in the order [sqlVariables] produces them. *)

Record SqlVars := mkSqlVars {
  v_username : string;        (* $1 *)
  v_avatar : string;          (* $2 *)
  v_avatar_url : string;      (* $3 *)
  v_avatar_set : bool;        (* $4 *)
  v_displayname : string;     (* $5 *)
  v_name_quality : Z;         (* $6 *)
  v_name_set : bool;          (* $7 *)
  v_contact_info_set : bool;  (* $8 *)
  v_last_sync : Z;            (* $9 *)
  v_custom_mxid : string;     (* $10 *)
  v_access_token : string;    (* $11 *)
  v_next_batch : string;      (* $12 *)
  v_enable_presence : bool;   (* $13 *)
  v_enable_receipts : bool    (* $14 *)
}.

Inductive Stmt :=
| insertPuppetQuery (vars : SqlVars)
| updatePuppetQuery (vars : SqlVars)
  (* UPDATE puppet SET last_activity_ts=$1 WHERE username=$2 *)
| updateLastActivityTs (ts : Z) (user : string)
  (* UPDATE puppet SET first_activity_ts=$1 WHERE username=$2
     AND first_activity_ts is NULL *)
| updateFirstActivityTs (ts : Z) (user : string).

Inductive Select :=
| getAllPuppetsQuery
| getPuppetByJIDQuery (user : string)
| getPuppetByCustomMXIDQuery (mxid : string)
| getAllPuppetsWithCustomMXIDQuery.

Definition has_user (user : string) (t : Table) : bool :=
  existsb (fun r => String.eqb (username r) user) t.

(** The row [insertPuppetQuery] creates: the fourteen listed columns take
    the arguments, the two activity columns are not listed and stay NULL. *)
Definition row_of_vars (v : SqlVars) : Row :=
  {| username := v_username v;
     avatar := Some (v_avatar v);
     avatar_url := Some (v_avatar_url v);
     avatar_set := Some (v_avatar_set v);
     displayname := Some (v_displayname v);
     name_quality := Some (v_name_quality v);
     name_set := Some (v_name_set v);
     contact_info_set := Some (v_contact_info_set v);
     last_sync := Some (v_last_sync v);
     custom_mxid := Some (v_custom_mxid v);
     access_token := Some (v_access_token v);
     next_batch := Some (v_next_batch v);
     enable_presence := Some (v_enable_presence v);
     enable_receipts := Some (v_enable_receipts v);
     first_activity_ts := None;
     last_activity_ts := None |}.

(** [updatePuppetQuery] on one row: every column but the key and the two
    activity columns is replaced. *)
Definition update_row (v : SqlVars) (r : Row) : Row :=
  if String.eqb (username r) (v_username v) then
    {| username := username r;
       avatar := Some (v_avatar v);
       avatar_url := Some (v_avatar_url v);
       avatar_set := Some (v_avatar_set v);
       displayname := Some (v_displayname v);
       name_quality := Some (v_name_quality v);
       name_set := Some (v_name_set v);
       contact_info_set := Some (v_contact_info_set v);
       last_sync := Some (v_last_sync v);
       custom_mxid := Some (v_custom_mxid v);
       access_token := Some (v_access_token v);
       next_batch := Some (v_next_batch v);
       enable_presence := Some (v_enable_presence v);
       enable_receipts := Some (v_enable_receipts v);
       first_activity_ts := first_activity_ts r;
       last_activity_ts := last_activity_ts r |}
  else r.

Definition set_last_activity_ts (ts : Z) (user : string) (r : Row) : Row :=
  if String.eqb (username r) user then
    {| username := username r; avatar := avatar r;
       avatar_url := avatar_url r; avatar_set := avatar_set r;
       displayname := displayname r; name_quality := name_quality r;
       name_set := name_set r; contact_info_set := contact_info_set r;
       last_sync := last_sync r; custom_mxid := custom_mxid r;
       access_token := access_token r; next_batch := next_batch r;
       enable_presence := enable_presence r;
       enable_receipts := enable_receipts r;
       first_activity_ts := first_activity_ts r;
       last_activity_ts := Some ts |}
  else r.

Definition set_first_activity_ts (ts : Z) (user : string) (r : Row) : Row :=
  match first_activity_ts r with
  | None =>
      if String.eqb (username r) user then
        {| username := username r; avatar := avatar r;
           avatar_url := avatar_url r; avatar_set := avatar_set r;
           displayname := displayname r; name_quality := name_quality r;
           name_set := name_set r; contact_info_set := contact_info_set r;
           last_sync := last_sync r; custom_mxid := custom_mxid r;
           access_token := access_token r; next_batch := next_batch r;
           enable_presence := enable_presence r;
           enable_receipts := enable_receipts r;
           first_activity_ts := Some ts;
           last_activity_ts := last_activity_ts r |}
      else r
  | Some _ => r
  end.

(** What a statement does to the table when the driver carries it out. *)
Definition run_stmt (q : Stmt) (t : Table) : Table + error :=
  match q with
  | insertPuppetQuery v =>
      if has_user (v_username v) t then inr ErrUniqueViolation
      else inl (t ++ [row_of_vars v])%list
  | updatePuppetQuery v => inl (map (update_row v) t)
  | updateLastActivityTs ts user => inl (map (set_last_activity_ts ts user) t)
  | updateFirstActivityTs ts user => inl (map (set_first_activity_ts ts user) t)
  end.

(** The rows a query selects, in table order. A NULL [custom_mxid] satisfies
    neither [=] nor [<>]. *)
Definition run_select (q : Select) (t : Table) : list Row :=
  match q with
  | getAllPuppetsQuery => t
  | getPuppetByJIDQuery user =>
      filter (fun r => String.eqb (username r) user) t
  | getPuppetByCustomMXIDQuery mxid =>
      filter (fun r => match custom_mxid r with
                       | Some m => String.eqb m mxid
                       | None => false
                       end) t
  | getAllPuppetsWithCustomMXIDQuery =>
      filter (fun r => match custom_mxid r with
                       | Some m => negb (String.eqb m "")
                       | None => false
                       end) t
  end.

(** [qh.Exec(ctx, query, args...)]: [None] is the nil error. A failed
    statement leaves the table as it was. *)
Definition Exec (q : Stmt) : M (option error) :=
  failed <- next_fault ;;
  if failed : bool then ret (Some ErrDriver)
  else
    t <- get_table ;;
    match run_stmt q t with
    | inl t' => put_table t' ;;; ret None
    | inr e => ret (Some e)
    end.

(** *** Scanning rows

    The value handed to [Scan]: the columns of a selected row, or the error
    [row.Scan] reports (no row, or a failure of the driver). *)

Inductive Scannable :=
| RowValues (r : Row)
| RowError (e : error).

(** The [String], [Int64] and [Bool] fields of [sql.NullString],
    [sql.NullInt64] and [sql.NullBool]: the zero value for NULL. *)
Definition NullString_String (o : option string) : string :=
  match o with Some s => s | None => "" end.

Definition NullInt64_Int64 (o : option Z) : Z :=
  match o with Some z => z | None => 0 end.

Definition NullBool_Bool (o : option bool) : bool :=
  match o with Some b => b | None => false end.

(** [puppet.Scan(row)]: the receiver with its fields overwritten from the
    row. [LastSync] is assigned only for a positive column value. *)
Definition Scan (puppet : Puppet) (row : Scannable) : Puppet + error :=
  match row with
  | RowError err => inr err
  | RowValues r =>
      inl {| JID := types.NewJID (username r) types.DefaultUserServer;
             Displayname := NullString_String (displayname r);
             Avatar := NullString_String (avatar r);
             AvatarURL :=
               fst (id.ParseContentURI (NullString_String (avatar_url r)));
             NameQuality := Int.wrap8 (NullInt64_Int64 (name_quality r));
             NameSet := NullBool_Bool (name_set r);
             AvatarSet := NullBool_Bool (avatar_set r);
             ContactInfoSet := NullBool_Bool (contact_info_set r);
             LastSync :=
               if NullInt64_Int64 (last_sync r) >? 0
               then time.Unix (NullInt64_Int64 (last_sync r)) 0
               else LastSync puppet;
             CustomMXID := NullString_String (custom_mxid r);
             AccessToken := NullString_String (access_token r);
             NextBatch := NullString_String (next_batch r);
             EnablePresence := NullBool_Bool (enable_presence r);
             EnableReceipts := NullBool_Bool (enable_receipts r);
             FirstActivityTs := NullInt64_Int64 (first_activity_ts r);
             LastActivityTs := NullInt64_Int64 (last_activity_ts r) |}
  end.

(** [puppet.sqlVariables()] *)
Definition sqlVariables (puppet : Puppet) : SqlVars :=
  let lastSyncTS :=
    if negb (time.IsZero (LastSync puppet))
    then time.Unix_of (LastSync puppet) else 0 in
  {| v_username := types.User (JID puppet);
     v_avatar := Avatar puppet;
     v_avatar_url := id.String_ (AvatarURL puppet);
     v_avatar_set := AvatarSet puppet;
     v_displayname := Displayname puppet;
     v_name_quality := NameQuality puppet;
     v_name_set := NameSet puppet;
     v_contact_info_set := ContactInfoSet puppet;
     v_last_sync := lastSyncTS;
     v_custom_mxid := CustomMXID puppet;
     v_access_token := AccessToken puppet;
     v_next_batch := NextBatch puppet;
     v_enable_presence := EnablePresence puppet;
     v_enable_receipts := EnableReceipts puppet |}.

(** *** Mutators *)

(** [puppet.Insert(ctx)] *)
Definition Insert (puppet : Puppet) : M (option error) :=
  if negb (String.eqb (types.Server (JID puppet)) types.DefaultUserServer)
  then
    Log WarnLevel "Not inserting puppet: not a user" ;;;
    ret None
  else Exec (insertPuppetQuery (sqlVariables puppet)).

(** [puppet.Update(ctx)] *)
Definition Update (puppet : Puppet) : M (option error) :=
  Exec (updatePuppetQuery (sqlVariables puppet)).

Definition warn_on_error (err : option error) (msg : string) : M unit :=
  match err with
  | Some _ => Log WarnLevel msg
  | None => ret tt
  end.

(** [puppet.UpdateActivityTs(ctx, activityTs)]: the puppet behind the
    receiver pointer after the call. *)
Definition UpdateActivityTs (puppet : Puppet) (activityTs : Z) : M Puppet :=
  if LastActivityTs puppet >? activityTs then ret puppet
  else
    Log DebugLevel "Updating activity time" ;;;
    let puppet := set_LastActivityTs activityTs puppet in
    err <- Exec (updateLastActivityTs (LastActivityTs puppet)
                                      (types.User (JID puppet))) ;;
    warn_on_error err "Failed to update last_activity_ts" ;;;
    if FirstActivityTs puppet =? 0 then
      let puppet := set_FirstActivityTs activityTs puppet in
      err <- Exec (updateFirstActivityTs (FirstActivityTs puppet)
                                         (types.User (JID puppet))) ;;
      warn_on_error err "Failed to update first_activity_ts" ;;;
      ret puppet
    else ret puppet.

(** *** Queries ([dbutil.QueryHelper]) *)

(** [db.QueryRow]: the first selected row. *)
Definition QueryRow (q : Select) : M Scannable :=
  failed <- next_fault ;;
  if failed : bool then ret (RowError ErrDriver)
  else
    t <- get_table ;;
    ret (match run_select q t with
         | r :: _ => RowValues r
         | [] => RowError ErrNoRows
         end).

(** [qh.QueryOne]: a fresh puppet scanned from the row; no row is not an
    error. *)
Definition QueryOne (q : Select) : M (option Puppet * option error) :=
  row <- QueryRow q ;;
  match Scan newPuppet row with
  | inl p => ret (Some p, None)
  | inr ErrNoRows => ret (None, None)
  | inr err => ret (None, Some err)
  end.

Fixpoint scan_all (rows : list Row) : list Puppet + error :=
  match rows with
  | [] => inl []
  | r :: rest =>
      match Scan newPuppet (RowValues r) with
      | inr err => inr err
      | inl p =>
          match scan_all rest with
          | inr err => inr err
          | inl ps => inl (p :: ps)
          end
      end
  end.

(** [qh.QueryMany]: a fresh puppet per selected row. *)
Definition QueryMany (q : Select) : M (list Puppet * option error) :=
  failed <- next_fault ;;
  if failed : bool then ret ([], Some ErrDriver)
  else
    t <- get_table ;;
    match scan_all (run_select q t) with
    | inl ps => ret (ps, None)
    | inr err => ret ([], Some err)
    end.

Definition GetAll : M (list Puppet * option error) :=
  QueryMany getAllPuppetsQuery.

Definition Get (jid : types.JID) : M (option Puppet * option error) :=
  QueryOne (getPuppetByJIDQuery (types.User jid)).

Definition GetByCustomMXID (mxid : string) : M (option Puppet * option error) :=
  QueryOne (getPuppetByCustomMXIDQuery mxid).

Definition GetAllWithCustomMXID : M (list Puppet * option error) :=
  QueryMany getAllPuppetsWithCustomMXIDQuery.

(** A sequence of activity updates delivered to one puppet. *)
Fixpoint UpdateActivityTs_seq (puppet : Puppet) (tss : list Z) : M Puppet :=
  match tss with
  | [] => ret puppet
  | ts :: rest =>
      puppet' <- UpdateActivityTs puppet ts ;;
      UpdateActivityTs_seq puppet' rest
  end.

End database.

(** ** [main]: the bridge orchestrator *)

Module main.

Import database.
Local Open Scope m_scope.

Definition ONE_DAY_S : Z := 24 * 60 * 60.

(** Modelled from the spec: the limits block of the bridge configuration
    ([mh.Config.Limits]), whose declaration is not among the sources. The
    three numbers are [uint] values ([MaxPuppetLimit] is compared with the
    [uint] counter); the spec names them the configured maximum, the
    minimum-active-duration and the maximum-inactivity window (in days). *)
Record Limits := mkLimits {
  MaxPuppetLimit : Z;
  MinPuppetActiveDays : Z;
  PuppetInactivityDays : Z;
  BlockOnLimitReached : bool
}.

(** The activity snapshot shared with the rest of the bridge. *)
Record PuppetActivity := mkPuppetActivity {
  currentUserCount : Z;
  isBlocked : bool
}.

(** The fields of [PuppetActivity], to record which of them a run assigns. *)
Inductive Field := F_isBlocked | F_currentUserCount.

Definition set_isBlocked (b : bool) (pa : PuppetActivity) : PuppetActivity :=
  {| currentUserCount := currentUserCount pa; isBlocked := b |}.

Definition set_currentUserCount (n : Z) (pa : PuppetActivity)
  : PuppetActivity :=
  {| currentUserCount := n; isBlocked := isBlocked pa |}.

(** [int64(ONE_DAY_S * mh.Config.Limits.MinPuppetActiveDays)]: the product
    is taken on [uint] and reinterpreted as [int64]. *)
Definition minActivityTime (limits : Limits) : Z :=
  Int.wrap64 (Int.wrapU (ONE_DAY_S * MinPuppetActiveDays limits)).

(** [int64(ONE_DAY_S * mh.Config.Limits.PuppetInactivityDays)] *)
Definition maxActivityTime (limits : Limits) : Z :=
  Int.wrap64 (Int.wrapU (ONE_DAY_S * PuppetInactivityDays limits)).

(** The rows of
    [SELECT first_activity_ts, last_activity_ts FROM puppet
     WHERE first_activity_ts is not NULL], in table order: the first column
    is never NULL, the second may be. *)
Definition activity_rows (t : Table) : list (Z * option Z) :=
  flat_map (fun r => match first_activity_ts r with
                     | Some f => [(f, last_activity_ts r)]
                     | None => []
                     end) t.

(** [mh.DB.Query(...)] for the statement above. *)
Definition Query_activity : M (list (Z * option Z) + error) :=
  failed <- next_fault ;;
  if failed : bool then ret (inr ErrDriver)
  else
    t <- get_table ;;
    ret (inl (activity_rows t)).

(** The variables declared before the loop and updated by it. *)
Record ScanVars := mkScanVars {
  firstActivityTs : Z;
  lastActivityTs : Z;
  activePuppetCount : Z
}.

(** [rows.Scan(&firstActivityTs, &lastActivityTs)]: the destinations are
    assigned in order; NULL cannot be stored in an [int64], so a NULL second
    column makes [Scan] fail after the first assignment. The error is
    dropped by the caller and [lastActivityTs] keeps the value it had. *)
Definition rows_Scan (row : Z * option Z) (v : ScanVars) : ScanVars :=
  {| firstActivityTs := fst row;
     lastActivityTs := match snd row with
                       | Some l => l
                       | None => lastActivityTs v
                       end;
     activePuppetCount := activePuppetCount v |}.

(** The test of the loop body on the scanned variables, with the clock
    reading [now]. *)
Definition counts_as_active (limits : Limits) (now : Z) (v : ScanVars) : bool :=
  let secondsOfActivity := Int.sub64 (lastActivityTs v) (firstActivityTs v) in
  let isInactive :=
    Int.sub64 now (lastActivityTs v) >? maxActivityTime limits in
  negb isInactive
  && (secondsOfActivity >? minActivityTime limits)
  && (secondsOfActivity <? maxActivityTime limits).

(** [for rows.Next() { ... }] *)
Fixpoint scan_loop (limits : Limits) (rows : list (Z * option Z))
         (v : ScanVars) : M ScanVars :=
  match rows with
  | [] => ret v
  | row :: rest =>
      let v := rows_Scan row v in
      now <- time_Now_Unix ;;
      let v :=
        if counts_as_active limits now v
        then {| firstActivityTs := firstActivityTs v;
                lastActivityTs := lastActivityTs v;
                activePuppetCount := Int.incrU (activePuppetCount v) |}
        else v in
      scan_loop limits rest v
  end.

(** [mh.UpdateActivePuppetCount()]: the snapshot after the call, and the
    fields of the snapshot the call assigned, in order. *)
Definition UpdateActivePuppetCount (limits : Limits) (pa : PuppetActivity)
  : M (PuppetActivity * list Field) :=
  Log DebugLevel "Updating active puppet count" ;;;
  rows <- Query_activity ;;
  match rows with
  | inr active_err =>
      Log WarnLevel "Failed to scan number of active puppets:" ;;;
      ret (pa, [])
  | inl rows =>
      v <- scan_loop limits rows
             {| firstActivityTs := 0; lastActivityTs := 0;
                activePuppetCount := 0 |} ;;
      let '(pa, stores) :=
        if BlockOnLimitReached limits
        then (set_isBlocked (MaxPuppetLimit limits <? activePuppetCount v) pa,
              [F_isBlocked])
        else (pa, []) in
      Log DebugLevel "Current active puppet count is %d (max %d)" ;;;
      ret (set_currentUserCount (activePuppetCount v) pa,
           (stores ++ [F_currentUserCount])%list)
  end.

(** *** Starting the sessions *)

(** The part of a bridge [User] that [StartUsers] looks at. *)
Record User := mkUser {
  MXID : string;
  JID : types.JID
}.

Inductive StateEvent := StateUnconfigured.

(** What [StartUsers] does, in program order: log lines, goroutines
    launched, and global bridge states sent. *)
Inductive Action :=
| Debugln (msg : string)
| Go_Connect (user : User)   (* go user.Connect() *)
| SendGlobalBridgeState (state : StateEvent)
| Go_StartCustomPuppet (puppet : database.Puppet).
  (* go func(puppet *Puppet) {...}(loopuppet) *)

(** The first loop of [StartUsers]: the goroutines launched and the final
    value of [foundAnySessions]. *)
Fixpoint start_users_loop (users : list User) (foundAnySessions : bool)
  : list Action * bool :=
  match users with
  | [] => ([], foundAnySessions)
  | user :: rest =>
      let foundAnySessions :=
        if negb (types.IsEmpty (JID user)) then true else foundAnySessions in
      let (actions, found) := start_users_loop rest foundAnySessions in
      (Go_Connect user :: actions, found)
  end.

(** [br.StartUsers()], given the results of [br.GetAllUsers()] and
    [br.GetAllPuppetsWithCustomMXID()]. *)
Definition StartUsers (allUsers : list User)
           (customPuppets : list database.Puppet) : list Action :=
  let (connects, foundAnySessions) := start_users_loop allUsers false in
  ([Debugln "Starting users"]
   ++ connects
   ++ (if negb foundAnySessions
       then [SendGlobalBridgeState StateUnconfigured] else [])
   ++ [Debugln "Starting custom puppets"]
   ++ map Go_StartCustomPuppet customPuppets)%list.

End main.

(** ** [main]: the check of the protocol version *)

Module wabridge.

(** [store.WAVersionContainer] (whatsmeow): three [uint32] parts. *)
Definition WAVersionContainer : Type := (Z * Z * Z)%type.

(** [vc == other] on the arrays. *)
Definition version_eqb (vc other : WAVersionContainer) : bool :=
  let '(a0, a1, a2) := vc in
  let '(b0, b1, b2) := other in
  (a0 =? b0) && (a1 =? b1) && (a2 =? b2).

(** [vc.LessThan(other)] (whatsmeow). *)
Definition LessThan (vc other : WAVersionContainer) : bool :=
  let '(a0, a1, a2) := vc in
  let '(b0, b1, b2) := other in
  (a0 <? b0)
  || ((a0 =? b0) && (a1 <? b1))
  || ((a0 =? b0) && (a1 =? b1) && (a2 <? b2)).

(** The fields of [whatsmeow.CheckUpdateResponse] that the check reads. *)
Record CheckUpdateResponse := mkCheckUpdateResponse {
  IsBroken : bool;
  IsBelowSoft : bool;
  IsBelowHard : bool;
  ParsedVersion : WAVersionContainer
}.

Inductive LogLevel := Debugf | Infof | Warnf.

(** [br.CheckWhatsAppUpdate()]: the lines it logs, given the version the
    bridge uses ([store.GetWAVersion()]) and the outcome of
    [whatsmeow.CheckUpdate] ([inr tt] for an error). *)
Definition CheckWhatsAppUpdate (current : WAVersionContainer)
           (result : CheckUpdateResponse + unit) : list (LogLevel * string) :=
  (Debugf, "Checking for WhatsApp web update")
  :: match result with
     | inr _ => [(Warnf, "Failed to check for WhatsApp web update: %v")]
     | inl resp =>
         if version_eqb current (ParsedVersion resp)
         then [(Debugf, "Bridge is using latest WhatsApp web protocol")]
         else if LessThan current (ParsedVersion resp)
         then
           if IsBelowHard resp || IsBroken resp
           then [(Warnf, "Bridge is using outdated WhatsApp web protocol and probably doesn't work anymore (%s, latest is %s)")]
           else if IsBelowSoft resp
           then [(Infof, "Bridge is using outdated WhatsApp web protocol (%s, latest is %s)")]
           else [(Debugf, "Bridge is using outdated WhatsApp web protocol (%s, latest is %s)")]
         else [(Debugf, "Bridge is using newer than latest WhatsApp web protocol")]
     end.

End wabridge.

(** ** Reference definitions used by the statements *)

Import database.

(** The in-memory effect of one activity update, as a function of the puppet
    alone. *)
Definition activity_step (puppet : Puppet) (ts : Z) : Puppet :=
  if LastActivityTs puppet >? ts then puppet
  else if FirstActivityTs puppet =? 0
       then set_FirstActivityTs ts (set_LastActivityTs ts puppet)
       else set_LastActivityTs ts puppet.

(** A world in which the coming driver calls behave as [fs] says. *)
Definition with_faults (fs : list bool) (w : World) : World :=
  {| puppet_table := puppet_table w; faults := fs; clock := clock w;
     ticks := ticks w; journal := journal w |}.

(** A world over table [t] in which the driver never fails and the clock
    stands at [now]. *)
Definition quiet_world (t : Table) (now : Z) : World :=
  {| puppet_table := t; faults := []; clock := fun _ => now; ticks := O;
     journal := [] |}.

(** A row holding nothing but its key and its two activity columns. *)
Definition activity_row (user : string) (first last : option Z) : Row :=
  {| username := user; avatar := None; avatar_url := None; avatar_set := None;
     displayname := None; name_quality := None; name_set := None;
     contact_info_set := None; last_sync := None; custom_mxid := None;
     access_token := None; next_batch := None; enable_presence := None;
     enable_receipts := None;
     first_activity_ts := first; last_activity_ts := last |}.

(** The variables of [UpdateActivePuppetCount] before its loop. *)
Definition scan_start : main.ScanVars :=
  {| main.firstActivityTs := 0; main.lastActivityTs := 0;
     main.activePuppetCount := 0 |}.

(** The loop of [UpdateActivePuppetCount] as a function of the clock: [k] is
    the number of clock readings taken before the loop reaches [rows]. *)
Fixpoint scan_pure (limits : main.Limits) (clk : nat -> Z) (k : nat)
         (rows : list (Z * option Z)) (v : main.ScanVars) : main.ScanVars :=
  match rows with
  | [] => v
  | row :: rest =>
      let v := main.rows_Scan row v in
      let v :=
        if main.counts_as_active limits (clk k) v
        then {| main.firstActivityTs := main.firstActivityTs v;
                main.lastActivityTs := main.lastActivityTs v;
                main.activePuppetCount :=
                  Int.incrU (main.activePuppetCount v) |}
        else v in
      scan_pure limits clk (S k) rest v
  end.

(** The count a run started in world [w] computes when its read succeeds. *)
Definition recomputed_count (limits : main.Limits) (w : World) : Z :=
  main.activePuppetCount
    (scan_pure limits (clock w) (ticks w)
               (main.activity_rows (puppet_table w)) scan_start).

(** The activity rule in the words of the design: a puppet is active iff its
    first-activity timestamp is not null, it is not inactive
    ([now - last] does not exceed the window) and
    [secondsActive = last - first] lies strictly between the minimum active
    duration and the window. The arithmetic is that of the integers. *)
Definition spec_is_active (minActive window now : Z) (r : Row) : bool :=
  match first_activity_ts r, last_activity_ts r with
  | Some first, Some last =>
      let secondsActive := last - first in
      let inactive := now - last >? window in
      negb inactive && (minActive <? secondsActive) && (secondsActive <? window)
  | _, _ => false
  end.

Definition spec_active_count (minActive window now : Z) (t : Table) : Z :=
  Z.of_nat (List.length (filter (spec_is_active minActive window now) t)).

(** A row the recomputation reads without loss: if its first-activity column
    is set then so is its last-activity column, both are [int64] values, and
    neither difference the loop takes overflows. *)
Definition row_readable (now : Z) (r : Row) : Prop :=
  match first_activity_ts r with
  | None => True
  | Some first =>
      match last_activity_ts r with
      | None => False
      | Some last =>
          Int.is_int64 first /\ Int.is_int64 last
          /\ Int.is_int64 (last - first) /\ Int.is_int64 (now - last)
      end
  end.

(** The puppet a query helper builds from a selected row: a fresh puppet
    scanned from it. *)
Definition scan_row (r : Row) : Puppet :=
  match Scan newPuppet (RowValues r) with
  | inl scanned => scanned
  | inr _ => newPuppet
  end.

(** A JID as [Scan] builds them: a standard user without device or agent. *)
Definition plain_user_jid (jid : types.JID) : Prop :=
  jid = types.NewJID (types.User jid) types.DefaultUserServer
  /\ types.Server jid = types.DefaultUserServer
  /\ types.Device jid = 0 /\ types.RawAgent jid = 0
  /\ types.Integrator jid = 0.

(** What [Get] scans out of the row that [Insert] writes for a puppet. *)
Definition roundtrip_image (puppet : Puppet) : Puppet :=
  match Scan newPuppet (RowValues (row_of_vars (sqlVariables puppet))) with
  | inl scanned => scanned
  | inr _ => newPuppet
  end.

(** Agreement of two puppets on every field that [insertPuppetQuery] lists,
    that is on everything but the two activity timestamps, which the table
    fills in by default. *)
Definition same_persisted_fields (p q : Puppet) : Prop :=
  JID p = JID q /\ Avatar p = Avatar q /\ AvatarURL p = AvatarURL q
  /\ AvatarSet p = AvatarSet q /\ Displayname p = Displayname q
  /\ NameQuality p = NameQuality q /\ NameSet p = NameSet q
  /\ ContactInfoSet p = ContactInfoSet q /\ LastSync p = LastSync q
  /\ CustomMXID p = CustomMXID q /\ AccessToken p = AccessToken q
  /\ NextBatch p = NextBatch q /\ EnablePresence p = EnablePresence q
  /\ EnableReceipts p = EnableReceipts q.

(** A content URI that is printed in full: both parts present and no slash
    in the homeserver part. *)
Definition well_formed_uri (uri : id.ContentURI) : Prop :=
  id.IsEmpty uri = false
  /\ strings.IndexRune (id.Homeserver uri) "/"%char = None.

(** The users for which a sequence of actions launches [Connect]. *)
Fixpoint connect_attempts (actions : list main.Action) : list main.User :=
  match actions with
  | [] => []
  | main.Go_Connect user :: rest => user :: connect_attempts rest
  | _ :: rest => connect_attempts rest
  end.

(** Row [r'] is row [r] after some writes that left a first-activity
    timestamp already stored in [r] as it was. *)
Definition keeps_first_activity (r r' : Row) : Prop :=
  username r' = username r
  /\ (first_activity_ts r <> None ->
      first_activity_ts r' = first_activity_ts r).

(** Agreement of two rows on the key and on every column that
    [insertPuppetQuery] and [updatePuppetQuery] list. *)
Definition same_profile (r r' : Row) : Prop :=
  username r' = username r /\ avatar r' = avatar r
  /\ avatar_url r' = avatar_url r /\ avatar_set r' = avatar_set r
  /\ displayname r' = displayname r /\ name_quality r' = name_quality r
  /\ name_set r' = name_set r /\ contact_info_set r' = contact_info_set r
  /\ last_sync r' = last_sync r /\ custom_mxid r' = custom_mxid r
  /\ access_token r' = access_token r /\ next_batch r' = next_batch r
  /\ enable_presence r' = enable_presence r
  /\ enable_receipts r' = enable_receipts r.

(** Row [r] with its two activity columns replaced. *)
Definition with_activity (first last : option Z) (r : Row) : Row :=
  {| username := username r; avatar := avatar r; avatar_url := avatar_url r;
     avatar_set := avatar_set r; displayname := displayname r;
     name_quality := name_quality r; name_set := name_set r;
     contact_info_set := contact_info_set r; last_sync := last_sync r;
     custom_mxid := custom_mxid r; access_token := access_token r;
     next_batch := next_batch r; enable_presence := enable_presence r;
     enable_receipts := enable_receipts r;
     first_activity_ts := first; last_activity_ts := last |}.

(** The rows of the key [user], in table order. *)
Definition rows_of_user (user : string) (t : Table) : list Row :=
  filter (fun r => String.eqb (username r) user) t.

(** Whether some row stores [mxid] as its custom MXID (NULL stores none). *)
Definition has_custom_mxid (mxid : string) (t : Table) : bool :=
  existsb (fun r => match custom_mxid r with
                    | Some m => String.eqb m mxid
                    | None => false
                    end) t.

(** A puppet that is double-puppeted: its custom MXID is not empty. *)
Definition is_custom (puppet : Puppet) : bool :=
  negb (String.eqb (CustomMXID puppet) "").

(** Row [r'] is row [r] after writes made for the key [user] that touch no
    column but the two activity timestamps. *)
Definition only_activity_of (user : string) (r r' : Row) : Prop :=
  same_profile r r' /\ (username r <> user -> r' = r).

(** A row in which no listed column is NULL and whose values are ones that
    [sqlVariables] produces again after a scan: the avatar URL is the string
    of an empty or well-formed content URI, the name quality fits [int8] and
    the last sync is not negative. *)
Definition canonical_row (r : Row) : Prop :=
  avatar r <> None
  /\ (exists uri : id.ContentURI,
         (well_formed_uri uri \/ uri = id.emptyContentURI)
         /\ avatar_url r = Some (id.String_ uri))
  /\ avatar_set r <> None /\ displayname r <> None
  /\ (exists q : Z, name_quality r = Some q /\ Int.is_int8 q)
  /\ name_set r <> None /\ contact_info_set r <> None
  /\ (exists s : Z, last_sync r = Some s /\ 0 <= s)
  /\ custom_mxid r <> None /\ access_token r <> None /\ next_batch r <> None
  /\ enable_presence r <> None /\ enable_receipts r <> None.

(** The table as the recomputation sees it: a scanned row (one with a first
    activity) whose last-activity column is NULL is read with the value left
    in the loop variable, which is the last activity of the closest scanned
    row before it, or [prev] when there is none. *)
Fixpoint fill_last_activity (prev : Z) (t : Table) : Table :=
  match t with
  | [] => []
  | r :: rest =>
      match first_activity_ts r, last_activity_ts r with
      | Some _, None =>
          with_activity (first_activity_ts r) (Some prev) r
          :: fill_last_activity prev rest
      | Some _, Some last => r :: fill_last_activity last rest
      | None, _ => r :: fill_last_activity prev rest
      end
  end.

(** World [w] over another table. *)
Definition with_table (t : Table) (w : World) : World :=
  {| puppet_table := t; faults := faults w; clock := clock w;
     ticks := ticks w; journal := journal w |}.

(** The count stored by a run of the recomputation in world [w]. *)
Definition count_after (limits : main.Limits) (pa : main.PuppetActivity)
           (w : World) : Z :=
  main.currentUserCount
    (fst (fst (main.UpdateActivePuppetCount limits pa w))).

(** The custom puppets for which a sequence of actions launches the start
    goroutine. *)
Fixpoint custom_starts (actions : list main.Action) : list Puppet :=
  match actions with
  | [] => []
  | main.Go_StartCustomPuppet puppet :: rest => puppet :: custom_starts rest
  | _ :: rest => custom_starts rest
  end.

(** How often a sequence of actions sends a global bridge state. *)
Fixpoint states_sent (actions : list main.Action) : nat :=
  match actions with
  | [] => O
  | main.SendGlobalBridgeState _ :: rest => S (states_sent rest)
  | _ :: rest => states_sent rest
  end.

(** ** Activity timestamps of a puppet *)

Lemma UpdateActivityTs_in_memory (puppet : Puppet) (ts : Z) (w : World) :
  fst (UpdateActivityTs puppet ts w) = activity_step puppet ts.
Proof.
  unfold UpdateActivityTs, activity_step.
  destruct (LastActivityTs puppet >? ts); [reflexivity|].
  unfold bind.
  destruct (Log DebugLevel "Updating activity time" w) as [u w1].
  destruct (Exec _ w1) as [err w2].
  destruct (warn_on_error err _ w2) as [u2 w3].
  cbn [FirstActivityTs set_LastActivityTs].
  destruct (FirstActivityTs puppet =? 0); [|reflexivity].
  destruct (Exec _ w3) as [err' w4].
  destruct (warn_on_error err' _ w4) as [u3 w5].
  reflexivity.
Qed.

Lemma activity_step_last_le (puppet : Puppet) (ts : Z) :
  LastActivityTs puppet <= LastActivityTs (activity_step puppet ts).
Proof.
  unfold activity_step.
  destruct (Z.gtb_spec (LastActivityTs puppet) ts) as [Hgt|Hle]; [lia|].
  destruct (FirstActivityTs puppet =? 0); cbn; lia.
Qed.

Lemma activity_step_first_frozen (puppet : Puppet) (ts : Z) :
  FirstActivityTs puppet <> 0 ->
  FirstActivityTs (activity_step puppet ts) = FirstActivityTs puppet.
Proof.
  intros Hset. unfold activity_step.
  destruct (LastActivityTs puppet >? ts); [reflexivity|].
  destruct (Z.eqb_spec (FirstActivityTs puppet) 0); [contradiction|reflexivity].
Qed.

Lemma activity_step_newer (puppet : Puppet) (ts : Z) :
  LastActivityTs puppet <= ts ->
  LastActivityTs (activity_step puppet ts) = ts
  /\ FirstActivityTs (activity_step puppet ts)
     = (if FirstActivityTs puppet =? 0 then ts else FirstActivityTs puppet).
Proof.
  intros Hle. unfold activity_step.
  destruct (Z.gtb_spec (LastActivityTs puppet) ts) as [Hgt|_]; [lia|].
  destruct (FirstActivityTs puppet =? 0); split; reflexivity.
Qed.

Lemma UpdateActivityTs_seq_in_memory (tss : list Z) :
  forall (puppet : Puppet) (w : World),
    fst (UpdateActivityTs_seq puppet tss w) = fold_left activity_step tss puppet.
Proof.
  induction tss as [|ts rest IH]; intros puppet w; [reflexivity|].
  cbn [UpdateActivityTs_seq fold_left]. unfold bind.
  pose proof (UpdateActivityTs_in_memory puppet ts w) as Hstep.
  destruct (UpdateActivityTs puppet ts w) as [puppet' w'].
  cbn [fst] in Hstep. subst puppet'. apply IH.
Qed.

Lemma activity_steps_last_le (tss : list Z) :
  forall puppet : Puppet,
    LastActivityTs puppet <= LastActivityTs (fold_left activity_step tss puppet).
Proof.
  induction tss as [|ts rest IH]; intros puppet; cbn [fold_left]; [lia|].
  pose proof (activity_step_last_le puppet ts).
  specialize (IH (activity_step puppet ts)). lia.
Qed.

Lemma activity_steps_first_frozen (tss : list Z) :
  forall puppet : Puppet,
    FirstActivityTs puppet <> 0 ->
    FirstActivityTs (fold_left activity_step tss puppet) = FirstActivityTs puppet.
Proof.
  induction tss as [|ts rest IH]; intros puppet Hset; cbn [fold_left];
    [reflexivity|].
  pose proof (activity_step_first_frozen puppet ts Hset) as Hkeep.
  rewrite IH; [exact Hkeep | rewrite Hkeep; exact Hset].
Qed.

Lemma UpdateActivityTs_older_untouched (puppet : Puppet) (ts : Z) (w : World) :
  ts < LastActivityTs puppet -> UpdateActivityTs puppet ts w = (puppet, w).
Proof.
  intros Hlt. unfold UpdateActivityTs.
  destruct (Z.gtb_spec (LastActivityTs puppet) ts) as [_|Hle]; [reflexivity|lia].
Qed.

(** C1 (as the code has it). A strictly older timestamp leaves the puppet, the
    table and the log untouched; any other timestamp (newer or equal) becomes
    [LastActivityTs], and [FirstActivityTs] takes it exactly when it was still
    0. Hence over any sequence of calls [LastActivityTs] never decreases and a
    non-zero [FirstActivityTs] never changes; the arrivals 100, 50, 200 on a
    puppet without activity end with last = 200 and first = 100. *)
Theorem UpdateActivityTs_monotone (puppet : Puppet) (ts : Z) (w : World) :
  (ts < LastActivityTs puppet -> UpdateActivityTs puppet ts w = (puppet, w))
  /\ (LastActivityTs puppet <= ts ->
      LastActivityTs (fst (UpdateActivityTs puppet ts w)) = ts
      /\ FirstActivityTs (fst (UpdateActivityTs puppet ts w))
         = (if FirstActivityTs puppet =? 0 then ts else FirstActivityTs puppet))
  /\ (forall tss : list Z,
        LastActivityTs puppet
        <= LastActivityTs (fst (UpdateActivityTs_seq puppet tss w))
        /\ (FirstActivityTs puppet <> 0 ->
            FirstActivityTs (fst (UpdateActivityTs_seq puppet tss w))
            = FirstActivityTs puppet))
  /\ (FirstActivityTs puppet = 0 -> LastActivityTs puppet <= 100 ->
      LastActivityTs (fst (UpdateActivityTs_seq puppet [100; 50; 200] w)) = 200
      /\ FirstActivityTs (fst (UpdateActivityTs_seq puppet [100; 50; 200] w)) = 100).
Proof.
  split; [apply UpdateActivityTs_older_untouched|].
  split.
  { intros Hle. rewrite UpdateActivityTs_in_memory.
    apply activity_step_newer, Hle. }
  split.
  { intros tss. rewrite UpdateActivityTs_seq_in_memory. split.
    - apply activity_steps_last_le.
    - apply activity_steps_first_frozen. }
  intros Hfirst Hlast. rewrite UpdateActivityTs_seq_in_memory.
  cbn [fold_left].
  destruct (activity_step_newer puppet 100 Hlast) as [Hl1 Hf1].
  rewrite Hfirst in Hf1. cbn in Hf1.
  set (p1 := activity_step puppet 100) in *.
  assert (Hp2 : activity_step p1 50 = p1).
  { unfold activity_step. rewrite Hl1. reflexivity. }
  rewrite Hp2.
  destruct (activity_step_newer p1 200) as [Hl3 Hf3]; [lia|].
  rewrite Hf1 in Hf3. cbn in Hf3. split; assumption.
Qed.

Lemma UpdateActivityTs_monotone_witness :
  UpdateActivityTs (set_LastActivityTs 100 newPuppet) 50 (quiet_world [] 0)
  = (set_LastActivityTs 100 newPuppet, quiet_world [] 0)
  /\ (LastActivityTs (fst (UpdateActivityTs newPuppet 7 (quiet_world [] 0))) = 7
      /\ FirstActivityTs (fst (UpdateActivityTs newPuppet 7 (quiet_world [] 0)))
         = (if FirstActivityTs newPuppet =? 0 then 7
            else FirstActivityTs newPuppet))
  /\ FirstActivityTs
       (fst (UpdateActivityTs_seq (set_FirstActivityTs 3 newPuppet) [9; 4]
               (quiet_world [] 0))) = 3
  /\ (LastActivityTs (fst (UpdateActivityTs_seq newPuppet [100; 50; 200]
                             (quiet_world [] 0))) = 200
      /\ FirstActivityTs (fst (UpdateActivityTs_seq newPuppet [100; 50; 200]
                                 (quiet_world [] 0))) = 100).
Proof.
  split.
  { apply (UpdateActivityTs_monotone (set_LastActivityTs 100 newPuppet) 50
             (quiet_world [] 0)).
    cbn. lia. }
  split.
  { apply (UpdateActivityTs_monotone newPuppet 7 (quiet_world [] 0)).
    cbn. lia. }
  split.
  { apply (UpdateActivityTs_monotone (set_FirstActivityTs 3 newPuppet) 0
             (quiet_world [] 0)).
    cbn. lia. }
  apply (UpdateActivityTs_monotone newPuppet 0 (quiet_world [] 0));
    cbn; [reflexivity | lia].
Defined.

(** C1 as worded fails when the timestamp equals the stored one: the guard is
    strict, so the call goes through. A puppet whose last activity is 5 and
    whose first activity is still unset receives 5 again: its first-activity
    field changes from 0 to 5, and the update is logged. *)
Lemma UpdateActivityTs_equal_ts_is_not_noop :
  let puppet := set_LastActivityTs 5 newPuppet in
  let result := UpdateActivityTs puppet 5 (quiet_world [] 0) in
  5 <= LastActivityTs puppet
  /\ FirstActivityTs puppet = 0
  /\ FirstActivityTs (fst result) = 5
  /\ fst result <> puppet
  /\ journal (snd result) = [(DebugLevel, "Updating activity time")].
Proof.
  cbn. repeat split; try lia. discriminate.
Qed.

(** *** The stored first-activity timestamp *)

Lemma keeps_first_activity_refl (r : Row) : keeps_first_activity r r.
Proof. split; [reflexivity | intros _; reflexivity]. Qed.

Lemma keeps_first_activity_last (ts : Z) (user : string) (r : Row) :
  keeps_first_activity r (set_last_activity_ts ts user r).
Proof.
  unfold set_last_activity_ts.
  destruct (String.eqb (username r) user); split; cbn; auto.
Qed.

Lemma keeps_first_activity_first (ts : Z) (user : string) (r : Row) :
  keeps_first_activity r (set_first_activity_ts ts user r).
Proof.
  unfold set_first_activity_ts.
  destruct (first_activity_ts r) as [f|] eqn:Hfirst.
  - split; [reflexivity | intros _; reflexivity].
  - destruct (String.eqb (username r) user); split; cbn; auto;
      intros Hset; rewrite Hfirst in Hset; contradiction.
Qed.

Lemma keeps_first_activity_trans (r1 r2 r3 : Row) :
  keeps_first_activity r1 r2 -> keeps_first_activity r2 r3 ->
  keeps_first_activity r1 r3.
Proof.
  intros [Hu12 Hf12] [Hu23 Hf23]. split; [congruence|].
  intros Hset. rewrite Hf23; [apply Hf12, Hset|].
  rewrite (Hf12 Hset). exact Hset.
Qed.

Lemma Forall2_map_rows (f : Row -> Row) (t : Table) :
  (forall r, keeps_first_activity r (f r)) ->
  Forall2 keeps_first_activity t (map f t).
Proof.
  intros Hf. induction t as [|r t IH]; cbn; constructor; [apply Hf | exact IH].
Qed.

Lemma Forall2_same_rows (t : Table) : Forall2 keeps_first_activity t t.
Proof.
  induction t as [|r t IH]; constructor;
    [apply keeps_first_activity_refl | exact IH].
Qed.

(** In the table, a first-activity timestamp that is already stored survives
    every activity update, whatever the driver does: the second write is
    conditional on the column being NULL. *)
Lemma UpdateActivityTs_keeps_stored_first
      (puppet : Puppet) (ts : Z) (w : World) :
  Forall2 keeps_first_activity
          (puppet_table w) (puppet_table (snd (UpdateActivityTs puppet ts w))).
Proof.
  unfold UpdateActivityTs.
  destruct (LastActivityTs puppet >? ts).
  { cbn. apply Forall2_same_rows. }
  unfold bind, Exec, bind, next_fault, Log, get_table, put_table, ret.
  cbn [FirstActivityTs set_LastActivityTs set_FirstActivityTs faults journal
       puppet_table run_stmt tl].
  destruct (faults w) as [|f1 [|f2 fs]]; cbn [hd tl];
    try destruct f1; try destruct f2;
    destruct (FirstActivityTs puppet =? 0); cbn;
    try rewrite map_map;
    first [ apply Forall2_map_rows; intros r;
            first [ apply keeps_first_activity_last
                  | apply keeps_first_activity_first
                  | eapply keeps_first_activity_trans;
                    [apply keeps_first_activity_last
                    |apply keeps_first_activity_first] ]
          | apply Forall2_same_rows ].
Qed.

(** ** Failing writes of the activity timestamps *)

(** The log after an update that passes the guard: the debug line, then one
    warning per failed write. *)
Lemma UpdateActivityTs_journal (puppet : Puppet) (ts : Z) (w : World) :
  LastActivityTs puppet <= ts ->
  journal (snd (UpdateActivityTs puppet ts w))
  = (journal w
     ++ [(DebugLevel, "Updating activity time")]
     ++ (if hd false (faults w)
         then [(WarnLevel, "Failed to update last_activity_ts")] else [])
     ++ (if FirstActivityTs puppet =? 0
         then if hd false (tl (faults w))
              then [(WarnLevel, "Failed to update first_activity_ts")] else []
         else []))%list.
Proof.
  intros Hle. unfold UpdateActivityTs.
  destruct (Z.gtb_spec (LastActivityTs puppet) ts) as [Hgt|_]; [lia|].
  unfold bind, Exec, bind, next_fault, Log, get_table, put_table, ret.
  cbn [FirstActivityTs set_LastActivityTs set_FirstActivityTs faults journal
       puppet_table run_stmt tl].
  destruct (faults w) as [|f1 [|f2 fs]]; cbn [hd tl];
    try destruct f1; try destruct f2;
    destruct (FirstActivityTs puppet =? 0);
    cbn; rewrite <- ?app_assoc; cbn; rewrite ?app_nil_r; reflexivity.
Qed.

(** When both writes fail the table is not touched. *)
Lemma UpdateActivityTs_table_on_failure (puppet : Puppet) (ts : Z) (w : World) :
  hd false (faults w) = true -> hd false (tl (faults w)) = true ->
  puppet_table (snd (UpdateActivityTs puppet ts w)) = puppet_table w.
Proof.
  intros Hf1 Hf2. unfold UpdateActivityTs.
  destruct (LastActivityTs puppet >? ts); [reflexivity|].
  unfold bind, Exec, bind, next_fault, Log, get_table, put_table, ret.
  cbn [FirstActivityTs set_LastActivityTs set_FirstActivityTs faults journal
       puppet_table run_stmt tl].
  destruct (faults w) as [|f1 [|f2 fs]]; cbn in Hf1, Hf2; try discriminate.
  subst f1 f2. destruct (FirstActivityTs puppet =? 0); reflexivity.
Qed.

(** C9. Whatever the driver does with the two writes, the puppet in memory
    ends as on the path where both succeed: [LastActivityTs] is the new
    timestamp and [FirstActivityTs] takes it when this is the first activity.
    A failed write only adds a warning to the log (after the debug line of the
    update); when both writes fail the table is left as it was. *)
Theorem UpdateActivityTs_write_failure_only_logged
        (puppet : Puppet) (ts : Z) (w : World) (fs : list bool) :
  LastActivityTs puppet <= ts ->
  let failing := UpdateActivityTs puppet ts (with_faults fs w) in
  let succeeding := UpdateActivityTs puppet ts (with_faults [] w) in
  fst failing = fst succeeding
  /\ LastActivityTs (fst failing) = ts
  /\ (FirstActivityTs puppet = 0 -> FirstActivityTs (fst failing) = ts)
  /\ journal (snd failing)
     = (journal w
        ++ [(DebugLevel, "Updating activity time")]
        ++ (if hd false fs
            then [(WarnLevel, "Failed to update last_activity_ts")] else [])
        ++ (if FirstActivityTs puppet =? 0
            then if hd false (tl fs)
                 then [(WarnLevel, "Failed to update first_activity_ts")]
                 else []
            else []))%list
  /\ (hd false fs = true -> hd false (tl fs) = true ->
      puppet_table (snd failing) = puppet_table w).
Proof.
  intros Hle failing succeeding. subst failing succeeding.
  split; [rewrite !UpdateActivityTs_in_memory; reflexivity|].
  destruct (activity_step_newer puppet ts Hle) as [Hlast Hfirst].
  split; [rewrite UpdateActivityTs_in_memory; exact Hlast|].
  split.
  { intros Hzero. rewrite UpdateActivityTs_in_memory, Hfirst, Hzero.
    reflexivity. }
  split.
  { rewrite (UpdateActivityTs_journal _ _ _ Hle). reflexivity. }
  intros Hf1 Hf2.
  rewrite UpdateActivityTs_table_on_failure; [reflexivity| |]; assumption.
Qed.

Lemma UpdateActivityTs_write_failure_only_logged_witness :
  let w := quiet_world [row_of_vars (sqlVariables newPuppet)] 0 in
  let failing := UpdateActivityTs newPuppet 42 (with_faults [true; true] w) in
  LastActivityTs (fst failing) = 42
  /\ FirstActivityTs (fst failing) = 42
  /\ journal (snd failing)
     = [(DebugLevel, "Updating activity time");
        (WarnLevel, "Failed to update last_activity_ts");
        (WarnLevel, "Failed to update first_activity_ts")]
  /\ puppet_table (snd failing) = puppet_table w.
Proof.
  intros w failing.
  destruct (UpdateActivityTs_write_failure_only_logged newPuppet 42 w
              [true; true]) as (_ & Hlast & Hfirst & Hlog & Htable).
  { cbn. lia. }
  split; [exact Hlast|].
  split; [apply Hfirst; reflexivity|].
  split; [exact Hlog|].
  apply Htable; reflexivity.
Defined.

(** ** Recomputing the activity snapshot *)

Lemma scan_loop_pure (limits : main.Limits) (rows : list (Z * option Z)) :
  forall (v : main.ScanVars) (w : World),
    main.scan_loop limits rows v w
    = (scan_pure limits (clock w) (ticks w) rows v,
       {| puppet_table := puppet_table w; faults := faults w;
          clock := clock w; ticks := (ticks w + List.length rows)%nat;
          journal := journal w |}).
Proof.
  induction rows as [|row rest IH]; intros v w.
  - cbn. rewrite Nat.add_0_r. destruct w; reflexivity.
  - cbn [main.scan_loop scan_pure List.length]. unfold bind, time_Now_Unix.
    rewrite IH. cbn [clock ticks puppet_table faults journal].
    rewrite Nat.add_succ_r. reflexivity.
Qed.

(** A failed read: nothing is assigned, a warning is logged. *)
Lemma UpdateActivePuppetCount_read_failure
      (limits : main.Limits) (pa : main.PuppetActivity) (w : World) :
  hd false (faults w) = true ->
  main.UpdateActivePuppetCount limits pa w
  = ((pa, []),
     {| puppet_table := puppet_table w; faults := tl (faults w);
        clock := clock w; ticks := ticks w;
        journal := (journal w
                    ++ [(DebugLevel, "Updating active puppet count")])
                    ++ [(WarnLevel, "Failed to scan number of active puppets:")]
     |}).
Proof.
  intros Hfail. unfold main.UpdateActivePuppetCount, main.Query_activity.
  unfold bind, next_fault, Log, ret. cbn [faults].
  destruct (faults w) as [|f fs]; cbn in Hfail; [discriminate|].
  subst f. reflexivity.
Qed.

(** A successful read: the count is the recomputed one; the blocked flag is
    assigned only under the hard-blocking policy. *)
Lemma UpdateActivePuppetCount_read_success
      (limits : main.Limits) (pa : main.PuppetActivity) (w : World) :
  hd false (faults w) = false ->
  fst (main.UpdateActivePuppetCount limits pa w)
  = (if main.BlockOnLimitReached limits
     then ({| main.currentUserCount := recomputed_count limits w;
              main.isBlocked :=
                main.MaxPuppetLimit limits <? recomputed_count limits w |},
           [main.F_isBlocked; main.F_currentUserCount])
     else ({| main.currentUserCount := recomputed_count limits w;
              main.isBlocked := main.isBlocked pa |},
           [main.F_currentUserCount])).
Proof.
  intros Hok. unfold main.UpdateActivePuppetCount, main.Query_activity.
  unfold bind at 1 2. unfold Log at 1. unfold bind at 1. unfold next_fault.
  cbn [faults].
  rewrite Hok. unfold get_table, bind, ret. cbn [puppet_table].
  rewrite scan_loop_pure. cbn [clock ticks puppet_table].
  unfold recomputed_count, scan_start.
  destruct (main.BlockOnLimitReached limits); reflexivity.
Qed.

(** C3. Under the hard-blocking policy, after a recomputation whose read
    succeeded the blocked flag is true iff the computed count (which is the
    count stored in the snapshot) is strictly greater than the configured
    maximum. *)
Theorem blocked_iff_count_exceeds_limit
        (limits : main.Limits) (pa : main.PuppetActivity) (w : World) :
  main.BlockOnLimitReached limits = true ->
  hd false (faults w) = false ->
  let pa' := fst (fst (main.UpdateActivePuppetCount limits pa w)) in
  main.currentUserCount pa' = recomputed_count limits w
  /\ (main.isBlocked pa' = true
      <-> main.MaxPuppetLimit limits < main.currentUserCount pa').
Proof.
  intros Hblock Hok pa'. subst pa'.
  rewrite (UpdateActivePuppetCount_read_success limits pa w Hok), Hblock.
  cbn [fst main.currentUserCount main.isBlocked].
  split; [reflexivity | apply Z.ltb_lt].
Qed.

Lemma blocked_iff_count_exceeds_limit_witness :
  let limits := {| main.MaxPuppetLimit := 0; main.MinPuppetActiveDays := 1;
                   main.PuppetInactivityDays := 30;
                   main.BlockOnLimitReached := true |} in
  let w := quiet_world [activity_row "a" (Some 1000) (Some 200000)] 200000 in
  let pa' := fst (fst (main.UpdateActivePuppetCount limits
                         {| main.currentUserCount := 0;
                            main.isBlocked := false |} w)) in
  main.currentUserCount pa' = 1 /\ main.isBlocked pa' = true.
Proof.
  intros limits w pa'.
  destruct (blocked_iff_count_exceeds_limit limits
              {| main.currentUserCount := 0; main.isBlocked := false |} w)
    as [Hcount Hiff]; [reflexivity | reflexivity |].
  subst pa'. split; [rewrite Hcount; reflexivity|].
  apply Hiff. rewrite Hcount. vm_compute. reflexivity.
Defined.

(** C4. When the read at the start of the recomputation fails, the run stops
    there: the snapshot it returns is the previous one (count and blocked flag
    as they were, no field assigned), and the failure is logged as a warning.
    In particular the count is not reset to zero. *)
Theorem read_failure_keeps_snapshot
        (limits : main.Limits) (pa : main.PuppetActivity) (w : World) :
  hd false (faults w) = true ->
  let run := main.UpdateActivePuppetCount limits pa w in
  fst (fst run) = pa
  /\ main.currentUserCount (fst (fst run)) = main.currentUserCount pa
  /\ main.isBlocked (fst (fst run)) = main.isBlocked pa
  /\ snd (fst run) = []
  /\ puppet_table (snd run) = puppet_table w
  /\ In (WarnLevel, "Failed to scan number of active puppets:")
        (journal (snd run)).
Proof.
  intros Hfail run. subst run.
  rewrite (UpdateActivePuppetCount_read_failure limits pa w Hfail).
  cbn [fst snd journal puppet_table].
  repeat split. apply in_or_app. right. left. reflexivity.
Qed.

Lemma read_failure_keeps_snapshot_witness :
  let limits := {| main.MaxPuppetLimit := 2; main.MinPuppetActiveDays := 1;
                   main.PuppetInactivityDays := 30;
                   main.BlockOnLimitReached := true |} in
  let pa := {| main.currentUserCount := 3; main.isBlocked := true |} in
  let w := with_faults [true] (quiet_world [] 0) in
  main.currentUserCount
    (fst (fst (main.UpdateActivePuppetCount limits pa w))) = 3
  /\ main.isBlocked
       (fst (fst (main.UpdateActivePuppetCount limits pa w))) = true.
Proof.
  intros limits pa w.
  destruct (read_failure_keeps_snapshot limits pa w)
    as (_ & Hcount & Hblocked & _); [reflexivity|].
  split; [exact Hcount | exact Hblocked].
Defined.

(** C5 (as the code has it). A run either fails to read and assigns nothing,
    or it replaces the count by the recomputed one; the blocked flag is
    replaced together with it only under the hard-blocking policy, and keeps
    its previous value otherwise. *)
Theorem snapshot_update_shape
        (limits : main.Limits) (pa : main.PuppetActivity) (w : World) :
  let run := fst (main.UpdateActivePuppetCount limits pa w) in
  (hd false (faults w) = true -> fst run = pa /\ snd run = [])
  /\ (hd false (faults w) = false ->
      main.currentUserCount (fst run) = recomputed_count limits w
      /\ (main.BlockOnLimitReached limits = true ->
          main.isBlocked (fst run)
          = (main.MaxPuppetLimit limits <? recomputed_count limits w)
          /\ snd run = [main.F_isBlocked; main.F_currentUserCount])
      /\ (main.BlockOnLimitReached limits = false ->
          main.isBlocked (fst run) = main.isBlocked pa
          /\ snd run = [main.F_currentUserCount])).
Proof.
  intros run. subst run. split.
  - intros Hfail.
    rewrite (UpdateActivePuppetCount_read_failure limits pa w Hfail).
    split; reflexivity.
  - intros Hok.
    rewrite (UpdateActivePuppetCount_read_success limits pa w Hok).
    destruct (main.BlockOnLimitReached limits); cbn;
      repeat split; intros; try discriminate; reflexivity.
Qed.

Lemma snapshot_update_shape_witness :
  let limits := {| main.MaxPuppetLimit := 0; main.MinPuppetActiveDays := 1;
                   main.PuppetInactivityDays := 30;
                   main.BlockOnLimitReached := false |} in
  let pa := {| main.currentUserCount := 0; main.isBlocked := false |} in
  let w := quiet_world [activity_row "a" (Some 1000) (Some 200000)] 200000 in
  (fst (main.UpdateActivePuppetCount limits pa (with_faults [true] w))
   = (pa, []))
  /\ main.isBlocked (fst (fst (main.UpdateActivePuppetCount limits pa w)))
     = main.isBlocked pa.
Proof.
  intros limits pa w. split.
  - destruct (snapshot_update_shape limits pa (with_faults [true] w))
      as [Hfail _].
    destruct Hfail as [Hpa Hstores]; [reflexivity|].
    rewrite <- Hpa at 2. rewrite <- Hstores. apply surjective_pairing.
  - destruct (snapshot_update_shape limits pa w) as [_ Hok].
    destruct Hok as (_ & _ & Hoff); [reflexivity|].
    apply Hoff. reflexivity.
Defined.

(** C5 as worded fails when hard blocking is disabled. With a limit of 0 and
    one active puppet in the table, a run on the initial snapshot (count 0,
    not blocked) assigns the count alone: the snapshot changes, the blocked
    flag is not written and does not reflect that the new count exceeds the
    limit. *)
Lemma snapshot_partially_updated_without_blocking :
  let limits := {| main.MaxPuppetLimit := 0; main.MinPuppetActiveDays := 1;
                   main.PuppetInactivityDays := 30;
                   main.BlockOnLimitReached := false |} in
  let pa := {| main.currentUserCount := 0; main.isBlocked := false |} in
  let w := quiet_world [activity_row "a" (Some 1000) (Some 200000)] 200000 in
  let run := fst (main.UpdateActivePuppetCount limits pa w) in
  fst run <> pa
  /\ snd run = [main.F_currentUserCount]
  /\ ~ In main.F_isBlocked (snd run)
  /\ main.currentUserCount (fst run) = 1
  /\ main.isBlocked (fst run) = false
  /\ main.isBlocked (fst run)
     <> (main.MaxPuppetLimit limits <? main.currentUserCount (fst run)).
Proof.
  vm_compute. repeat split; try discriminate.
  intros [H|[]]. discriminate H.
Qed.

(** ** The activity count against the rule of the design *)

Lemma wrap64_small (z : Z) : Int.is_int64 z -> Int.wrap64 z = z.
Proof.
  unfold Int.is_int64, Int.wrap64. intros Hz.
  rewrite Z.mod_small; lia.
Qed.

Lemma wrap64_range (z : Z) : Int.is_int64 (Int.wrap64 z).
Proof.
  unfold Int.is_int64, Int.wrap64.
  pose proof (Z.mod_pos_bound (z + 2 ^ 63) (2 ^ 64)). lia.
Qed.

Lemma incrU_small (n : Z) : 0 <= n -> n + 1 < 2 ^ 64 -> Int.incrU n = n + 1.
Proof.
  intros Hn Hfit. unfold Int.incrU, Int.wrapU. apply Z.mod_small. lia.
Qed.

(** On values whose differences do not overflow, the test of the loop is the
    rule of the design. *)
Lemma counts_as_active_rule (limits : main.Limits) (now first last c : Z)
      (user : string) :
  Int.is_int64 (last - first) -> Int.is_int64 (now - last) ->
  main.counts_as_active limits now
    {| main.firstActivityTs := first; main.lastActivityTs := last;
       main.activePuppetCount := c |}
  = spec_is_active (main.minActivityTime limits) (main.maxActivityTime limits)
      now (activity_row user (Some first) (Some last)).
Proof.
  intros Hspan Hage.
  unfold main.counts_as_active, spec_is_active, Int.sub64.
  cbn [main.firstActivityTs main.lastActivityTs first_activity_ts
       last_activity_ts activity_row].
  rewrite (wrap64_small _ Hspan), (wrap64_small _ Hage).
  rewrite (Z.gtb_ltb (last - first)). reflexivity.
Qed.

Lemma spec_is_active_columns (minActive window now : Z) (r : Row) :
  spec_is_active minActive window now r
  = spec_is_active minActive window now
      (activity_row (username r) (first_activity_ts r) (last_activity_ts r)).
Proof. reflexivity. Qed.

Lemma scan_pure_counts (limits : main.Limits) (clk : nat -> Z) (now : Z)
      (t : Table) :
  (forall j, clk j = now) ->
  Forall (row_readable now) t ->
  forall (k : nat) (v : main.ScanVars),
    0 <= main.activePuppetCount v ->
    main.activePuppetCount v + Z.of_nat (List.length t) < 2 ^ 64 ->
    main.activePuppetCount (scan_pure limits clk k (main.activity_rows t) v)
    = main.activePuppetCount v
      + spec_active_count (main.minActivityTime limits)
                          (main.maxActivityTime limits) now t.
Proof.
  intros Hclk Hrows. unfold spec_active_count.
  induction Hrows as [|r t Hr Hrows IH]; intros k v Hpos Hfit.
  - cbn. lia.
  - cbn [List.length] in Hfit. rewrite Nat2Z.inj_succ in Hfit.
    cbn [main.activity_rows flat_map filter].
    change (flat_map _ t) with (main.activity_rows t).
    rewrite (spec_is_active_columns _ _ _ r).
    unfold row_readable in Hr.
    destruct (first_activity_ts r) as [first|].
    + destruct (last_activity_ts r) as [last|]; [|contradiction].
      destruct Hr as (_ & _ & Hspan & Hage).
      cbn [app scan_pure]. unfold main.rows_Scan at 1 2 3 4.
      cbn [fst snd main.activePuppetCount main.firstActivityTs
           main.lastActivityTs].
      rewrite Hclk.
      rewrite (counts_as_active_rule limits now first last _ (username r)
                 Hspan Hage).
      destruct (spec_is_active _ _ now (activity_row _ _ _)).
      * rewrite (incrU_small (main.activePuppetCount v)) by lia.
        rewrite IH; cbn [main.activePuppetCount List.length];
          rewrite ?Nat2Z.inj_succ; lia.
      * unfold main.rows_Scan.
        rewrite IH; cbn [main.activePuppetCount]; lia.
    + cbn [app]. rewrite IH by lia. reflexivity.
Qed.



Lemma maxActivityTime_range (limits : main.Limits) :
  Int.is_int64 (main.maxActivityTime limits).
Proof. apply wrap64_range. Qed.



(** Outside the rows C2 speaks of: a scanned row whose last-activity column
    is NULL is judged with the last-activity value of the row scanned before
    it, because the loop variables are declared outside the loop and the
    error of [rows.Scan] is dropped. Here the second puppet has no
    last-activity timestamp and is counted on the strength of the first. *)
Lemma null_last_activity_reuses_previous_row :
  let limits := {| main.MaxPuppetLimit := 10; main.MinPuppetActiveDays := 1;
                   main.PuppetInactivityDays := 30;
                   main.BlockOnLimitReached := true |} in
  let pa := {| main.currentUserCount := 0; main.isBlocked := false |} in
  main.currentUserCount
    (fst (fst (main.UpdateActivePuppetCount limits pa
                 (quiet_world [activity_row "b" (Some 9000000) (Some 9900000);
                               activity_row "n" (Some 9000000) None]
                              10000000)))) = 2.
Proof. reflexivity. Qed.

(** ** Inserting puppets *)

Lemma Exec_on_quiet_driver (q : Stmt) (w : World) :
  hd false (faults w) = false ->
  Exec q w
  = match run_stmt q (puppet_table w) with
    | inl t' => (None, {| puppet_table := t'; faults := tl (faults w);
                          clock := clock w; ticks := ticks w;
                          journal := journal w |})
    | inr e => (Some e, {| puppet_table := puppet_table w;
                           faults := tl (faults w); clock := clock w;
                           ticks := ticks w; journal := journal w |})
    end.
Proof.
  intros Hok. unfold Exec, bind, next_fault, get_table, put_table, ret.
  cbn [faults puppet_table].
  rewrite Hok. cbn [puppet_table].
  destruct (run_stmt q (puppet_table w)); reflexivity.
Qed.

(** Outside the standard-user namespace [Insert] only logs. *)
Lemma Insert_rejected (puppet : Puppet) (w : World) :
  types.Server (JID puppet) <> types.DefaultUserServer ->
  Insert puppet w
  = (None,
     {| puppet_table := puppet_table w; faults := faults w; clock := clock w;
        ticks := ticks w;
        journal := (journal w
                    ++ [(WarnLevel, "Not inserting puppet: not a user")])%list
     |}).
Proof.
  intros Hother. unfold Insert.
  apply String.eqb_neq in Hother. rewrite Hother. reflexivity.
Qed.

(** Inside the namespace [Insert] is the execution of [insertPuppetQuery]. *)
Lemma Insert_accepted (puppet : Puppet) (w : World) :
  types.Server (JID puppet) = types.DefaultUserServer ->
  Insert puppet w = Exec (insertPuppetQuery (sqlVariables puppet)) w.
Proof.
  intros Huser. unfold Insert.
  apply String.eqb_eq in Huser. rewrite Huser. reflexivity.
Qed.

(** The insert statement on a working driver and a new key appends the row. *)
Lemma Exec_insert_new (vars : SqlVars) (w : World) :
  hd false (faults w) = false ->
  has_user (v_username vars) (puppet_table w) = false ->
  Exec (insertPuppetQuery vars) w
  = (None,
     {| puppet_table := (puppet_table w ++ [row_of_vars vars])%list;
        faults := tl (faults w); clock := clock w; ticks := ticks w;
        journal := journal w |}).
Proof.
  intros Hok Hnew. rewrite (Exec_on_quiet_driver _ w Hok).
  cbn [run_stmt]. rewrite Hnew. reflexivity.
Qed.

(** C6. A puppet whose identifier is outside the standard-user namespace is
    not inserted: no statement reaches the driver, the table (and so its row
    count) is unchanged, nil is returned and a warning is logged. A puppet
    inside the namespace is handed to the driver with [insertPuppetQuery];
    when the driver carries the statement out and the key is new, the row is
    in the table afterwards. *)
Theorem Insert_only_standard_users (puppet : Puppet) (w : World) :
  (types.Server (JID puppet) <> types.DefaultUserServer ->
   fst (Insert puppet w) = None
   /\ puppet_table (snd (Insert puppet w)) = puppet_table w
   /\ List.length (puppet_table (snd (Insert puppet w)))
      = List.length (puppet_table w)
   /\ faults (snd (Insert puppet w)) = faults w
   /\ journal (snd (Insert puppet w))
      = (journal w ++ [(WarnLevel, "Not inserting puppet: not a user")])%list)
  /\ (types.Server (JID puppet) = types.DefaultUserServer ->
      Insert puppet w = Exec (insertPuppetQuery (sqlVariables puppet)) w
      /\ (hd false (faults w) = false ->
          has_user (types.User (JID puppet)) (puppet_table w) = false ->
          fst (Insert puppet w) = None
          /\ puppet_table (snd (Insert puppet w))
             = (puppet_table w ++ [row_of_vars (sqlVariables puppet)])%list
          /\ List.length (puppet_table (snd (Insert puppet w)))
             = S (List.length (puppet_table w)))).
Proof.
  split.
  - intros Hother. rewrite (Insert_rejected puppet w Hother).
    cbn [fst snd puppet_table faults journal]. repeat split.
  - intros Huser. rewrite (Insert_accepted puppet w Huser).
    split; [reflexivity|].
    intros Hok Hnew. rewrite (Exec_insert_new (sqlVariables puppet) w Hok Hnew).
    cbn [fst snd puppet_table]. repeat split.
    rewrite length_app. cbn. apply Nat.add_1_r.
Qed.

Lemma Insert_only_standard_users_witness :
  let broadcast :=
    {| JID := types.NewJID "status" types.BroadcastServer; Avatar := "";
       AvatarURL := id.emptyContentURI; AvatarSet := false;
       Displayname := "Status"; NameQuality := 0; NameSet := false;
       ContactInfoSet := false; LastSync := time.zero; CustomMXID := "";
       AccessToken := ""; NextBatch := ""; EnablePresence := true;
       EnableReceipts := true; FirstActivityTs := 0; LastActivityTs := 0 |} in
  let contact :=
    {| JID := types.NewJID "491700000" types.DefaultUserServer; Avatar := "";
       AvatarURL := id.emptyContentURI; AvatarSet := false;
       Displayname := "Ada"; NameQuality := 50; NameSet := true;
       ContactInfoSet := false; LastSync := time.zero; CustomMXID := "";
       AccessToken := ""; NextBatch := ""; EnablePresence := true;
       EnableReceipts := true; FirstActivityTs := 0; LastActivityTs := 0 |} in
  let w := quiet_world [activity_row "491711111" None None] 0 in
  (fst (Insert broadcast w) = None
   /\ List.length (puppet_table (snd (Insert broadcast w))) = 1%nat)
  /\ (fst (Insert contact w) = None
      /\ List.length (puppet_table (snd (Insert contact w))) = 2%nat).
Proof.
  intros broadcast contact w. split.
  - destruct (Insert_only_standard_users broadcast w) as [Hreject _].
    destruct Hreject as (Hnil & _ & Hlen & _); [discriminate|].
    split; [exact Hnil | exact Hlen].
  - destruct (Insert_only_standard_users contact w) as [_ Haccept].
    destruct Haccept as (_ & Hdone); [reflexivity|].
    destruct Hdone as (Hnil & _ & Hlen); [reflexivity | reflexivity |].
    split; [exact Hnil | exact Hlen].
Defined.

(** ** Content URIs and instants through their stored form *)

Lemma string_length_append (s1 s2 : string) :
  String.length (s1 ++ s2) = (String.length s1 + String.length s2)%nat.
Proof. induction s1 as [|a s1 IH]; cbn; [reflexivity | now rewrite IH]. Qed.

Lemma IndexRune_append (h rest : string) (c : ascii) :
  strings.IndexRune h c = None ->
  strings.IndexRune (h ++ String c rest) c = Some (String.length h).
Proof.
  induction h as [|a h IH]; cbn; intros Hnone.
  - rewrite Ascii.eqb_refl. reflexivity.
  - destruct (Ascii.eqb a c); [discriminate|].
    destruct (strings.IndexRune h c); [discriminate|].
    rewrite IH by reflexivity. reflexivity.
Qed.

Lemma take_append (h rest : string) :
  strings.take (String.length h) (h ++ rest) = h.
Proof. induction h as [|a h IH]; cbn; [now destruct rest | now rewrite IH]. Qed.

Lemma drop_append (h rest : string) (c : ascii) :
  strings.drop (String.length h + 1) (h ++ String c rest) = rest.
Proof. induction h as [|a h IH]; cbn; [reflexivity | exact IH]. Qed.

Lemma HasPrefix_nil (s : string) : strings.HasPrefix s "" = true.
Proof. destruct s; reflexivity. Qed.

(** A well-formed content URI is parsed back from its string form. *)
Lemma ContentURI_roundtrip (uri : id.ContentURI) :
  well_formed_uri uri -> id.ParseContentURI (id.String_ uri) = (uri, false).
Proof.
  destruct uri as [h f]. unfold well_formed_uri, id.String_, id.IsEmpty.
  cbn [id.Homeserver id.FileID]. intros [Hfull Hslash].
  rewrite Hfull. apply orb_false_elim in Hfull as [Hh Hf].
  apply Nat.eqb_neq in Hh, Hf.
  unfold id.ParseContentURI.
  cbn [String.append String.length Nat.eqb strings.HasPrefix strings.drop
       Ascii.eqb Bool.eqb andb negb].
  rewrite HasPrefix_nil. cbn [negb].
  rewrite (IndexRune_append h f "/"%char Hslash).
  rewrite string_length_append. cbn [String.length Nat.sub].
  destruct (Nat.eqb_spec (String.length h)
                         (String.length h + S (String.length f) - 1));
    [lia|].
  rewrite take_append.
  cbn [Nat.add strings.drop]. rewrite drop_append. reflexivity.
Qed.

Lemma ContentURI_roundtrip_empty :
  id.ParseContentURI (id.String_ id.emptyContentURI)
  = (id.emptyContentURI, false).
Proof. reflexivity. Qed.


Lemma zero_time_before_epoch : time.Unix_of time.zero < 0.
Proof. vm_compute. reflexivity. Qed.

(** ** Insert followed by Get *)

Lemma select_absent_user (user : string) (t : Table) :
  has_user user t = false ->
  filter (fun r => String.eqb (username r) user) t = [].
Proof.
  induction t as [|r t IH]; cbn; [reflexivity|].
  intros Habsent. apply orb_false_elim in Habsent as [Hr Ht].
  rewrite Hr. apply IH, Ht.
Qed.

Lemma QueryOne_single_row (q : Select) (w : World) (r : Row) (rest : list Row) :
  hd false (faults w) = false ->
  run_select q (puppet_table w) = r :: rest ->
  exists scanned,
    Scan newPuppet (RowValues r) = inl scanned
    /\ fst (QueryOne q w) = (Some scanned, None).
Proof.
  intros Hok Hsel. eexists. split; [reflexivity|].
  unfold QueryOne, QueryRow, bind, next_fault, get_table, ret.
  cbn [faults puppet_table].
  rewrite Hok. cbn [puppet_table]. rewrite Hsel. reflexivity.
Qed.

(** A successful insert of a new standard user, then [Get] on its JID: the
    puppet returned is the scan of the inserted row. *)
Lemma Insert_then_Get (puppet : Puppet) (w : World) :
  types.Server (JID puppet) = types.DefaultUserServer ->
  hd false (faults w) = false ->
  hd false (tl (faults w)) = false ->
  has_user (types.User (JID puppet)) (puppet_table w) = false ->
  fst (Insert puppet w) = None
  /\ fst (Get (JID puppet) (snd (Insert puppet w)))
     = (Some (roundtrip_image puppet), None).
Proof.
  intros Huser Hok1 Hok2 Hnew.
  assert (Hinsert : Insert puppet w
                    = (None,
                       {| puppet_table :=
                            (puppet_table w
                             ++ [row_of_vars (sqlVariables puppet)])%list;
                          faults := tl (faults w); clock := clock w;
                          ticks := ticks w; journal := journal w |})).
  { rewrite (Insert_accepted puppet w Huser).
    apply Exec_insert_new; assumption. }
  assert (Hnil : fst (Insert puppet w) = None) by (rewrite Hinsert; reflexivity).
  assert (Htable : puppet_table (snd (Insert puppet w))
                   = (puppet_table w ++ [row_of_vars (sqlVariables puppet)])%list)
    by (rewrite Hinsert; reflexivity).
  assert (Hfaults : faults (snd (Insert puppet w)) = tl (faults w))
    by (rewrite Hinsert; reflexivity).
  split; [exact Hnil|].
  destruct (QueryOne_single_row (getPuppetByJIDQuery (types.User (JID puppet)))
              (snd (Insert puppet w)) (row_of_vars (sqlVariables puppet)) [])
    as (scanned & Hscan & Hget).
  - rewrite Hfaults. exact Hok2.
  - rewrite Htable. cbn [run_select].
    rewrite filter_app, (select_absent_user _ _ Hnew).
    cbn. rewrite String.eqb_refl. reflexivity.
  - unfold Get. rewrite Hget. unfold roundtrip_image. rewrite Hscan.
    reflexivity.
Qed.

Lemma wrap8_small (z : Z) : Int.is_int8 z -> Int.wrap8 z = z.
Proof.
  unfold Int.is_int8, Int.wrap8. intros Hz. rewrite Z.mod_small; lia.
Qed.





(** ** The JID of scanned puppets *)

Lemma NewJID_plain (user : string) :
  plain_user_jid (types.NewJID user types.DefaultUserServer).
Proof. unfold plain_user_jid. cbn. repeat split. Qed.

Lemma Scan_row_values (receiver : Puppet) (r : Row) :
  exists scanned,
    Scan receiver (RowValues r) = inl scanned
    /\ JID scanned = types.NewJID (username r) types.DefaultUserServer.
Proof. eexists. split; reflexivity. Qed.

Lemma scan_all_rows (rows : list Row) : scan_all rows = inl (map scan_row rows).
Proof.
  induction rows as [|r rows IH]; [reflexivity|].
  cbn [scan_all map]. rewrite IH. reflexivity.
Qed.

(** Whatever [QueryOne] returns was scanned from a selected row. *)
Lemma QueryOne_scanned (q : Select) (w : World) (got : Puppet)
      (err : option error) :
  fst (QueryOne q w) = (Some got, err) ->
  exists r, In r (run_select q (puppet_table w)) /\ got = scan_row r.
Proof.
  unfold QueryOne, QueryRow, bind, next_fault, get_table, ret.
  cbn [faults puppet_table].
  destruct (hd false (faults w)).
  - cbn. discriminate.
  - cbn [puppet_table].
    destruct (run_select q (puppet_table w)) as [|r rest]; cbn.
    + discriminate.
    + intros Hgot. exists r. split; [left; reflexivity|].
      injection Hgot as Hgot _. symmetry. exact Hgot.
Qed.

(** Whatever [QueryMany] returns was scanned from the selected rows. *)
Lemma QueryMany_scanned (q : Select) (w : World) :
  fst (fst (QueryMany q w)) = []
  \/ fst (fst (QueryMany q w)) = map scan_row (run_select q (puppet_table w)).
Proof.
  unfold QueryMany, bind, next_fault, get_table, ret.
  cbn [faults puppet_table].
  destruct (hd false (faults w)).
  - left. reflexivity.
  - right. cbn [puppet_table]. rewrite scan_all_rows. reflexivity.
Qed.

Lemma scanned_rows_plain (rows : list Row) :
  Forall (fun got => plain_user_jid (JID got)) (map scan_row rows).
Proof.
  induction rows as [|r rows IH]; cbn [map]; constructor; [|exact IH].
  apply NewJID_plain.
Qed.

(** C10. A successful [Scan] sets the JID of the puppet to
    [NewJID(username, DefaultUserServer)], whatever the receiver held: the
    server is the standard user server and the device, agent and integrator
    parts are zero. So it is for every puppet returned by [Get] (whose user
    part is the one asked for), [GetByCustomMXID], [GetAll] and
    [GetAllWithCustomMXID], and for a puppet read back after its insertion
    whatever device its JID carried. *)
Theorem scanned_JID_is_plain_user :
  (forall (receiver : Puppet) (row : Scannable) (scanned : Puppet),
      Scan receiver row = inl scanned ->
      exists r, row = RowValues r
                /\ JID scanned
                   = types.NewJID (username r) types.DefaultUserServer
                /\ plain_user_jid (JID scanned))
  /\ (forall (jid : types.JID) (w : World) (got : Puppet) (err : option error),
         fst (Get jid w) = (Some got, err) ->
         JID got = types.NewJID (types.User jid) types.DefaultUserServer
         /\ plain_user_jid (JID got))
  /\ (forall (mxid : string) (w : World) (got : Puppet) (err : option error),
         fst (GetByCustomMXID mxid w) = (Some got, err) ->
         plain_user_jid (JID got))
  /\ (forall w : World,
         Forall (fun got => plain_user_jid (JID got)) (fst (fst (GetAll w))))
  /\ (forall w : World,
         Forall (fun got => plain_user_jid (JID got))
                (fst (fst (GetAllWithCustomMXID w))))
  /\ (forall (puppet : Puppet) (w : World),
         types.Server (JID puppet) = types.DefaultUserServer ->
         hd false (faults w) = false ->
         hd false (tl (faults w)) = false ->
         has_user (types.User (JID puppet)) (puppet_table w) = false ->
         exists got,
           fst (Get (JID puppet) (snd (Insert puppet w))) = (Some got, None)
           /\ JID got
              = types.NewJID (types.User (JID puppet)) types.DefaultUserServer).
Proof.
  split.
  { intros receiver [r|e] scanned Hscan; [|discriminate].
    exists r. split; [reflexivity|].
    cbn in Hscan. injection Hscan as Hscan. subst scanned.
    cbn [JID]. split; [reflexivity | apply NewJID_plain]. }
  split.
  { intros jid w got err Hget. unfold Get in Hget.
    apply QueryOne_scanned in Hget as (r & Hin & Hgot). subst got.
    cbn [run_select] in Hin. apply filter_In in Hin as [_ Hkey].
    apply String.eqb_eq in Hkey.
    unfold scan_row. cbn. rewrite Hkey.
    split; [reflexivity | apply NewJID_plain]. }
  split.
  { intros mxid w got err Hget. unfold GetByCustomMXID in Hget.
    apply QueryOne_scanned in Hget as (r & _ & Hgot). subst got.
    apply NewJID_plain. }
  split.
  { intros w. unfold GetAll.
    destruct (QueryMany_scanned getAllPuppetsQuery w) as [Hnone|Hall].
    - rewrite Hnone. constructor.
    - rewrite Hall. apply scanned_rows_plain. }
  split.
  { intros w. unfold GetAllWithCustomMXID.
    destruct (QueryMany_scanned getAllPuppetsWithCustomMXIDQuery w)
      as [Hnone|Hall].
    - rewrite Hnone. constructor.
    - rewrite Hall. apply scanned_rows_plain. }
  intros puppet w Huser Hok1 Hok2 Hnew.
  destruct (Insert_then_Get puppet w Huser Hok1 Hok2 Hnew) as [_ Hget].
  exists (roundtrip_image puppet). split; [exact Hget | reflexivity].
Qed.

Lemma scanned_JID_is_plain_user_witness :
  let companion :=
    {| JID := {| types.User := "491700000"; types.RawAgent := 1;
                 types.Device := 3; types.Integrator := 0;
                 types.Server := types.DefaultUserServer |};
       Avatar := ""; AvatarURL := id.emptyContentURI; AvatarSet := false;
       Displayname := "Ada"; NameQuality := 50; NameSet := true;
       ContactInfoSet := false; LastSync := time.zero; CustomMXID := "";
       AccessToken := ""; NextBatch := ""; EnablePresence := true;
       EnableReceipts := true; FirstActivityTs := 0; LastActivityTs := 0 |} in
  let w := quiet_world [] 0 in
  (exists got,
      fst (Get (JID companion) (snd (Insert companion w))) = (Some got, None)
      /\ JID got = types.NewJID "491700000" types.DefaultUserServer)
  /\ plain_user_jid (JID (scan_row (activity_row "491711111" None None)))
  /\ plain_user_jid
       (JID (roundtrip_image companion)).
Proof.
  intros companion w.
  destruct scanned_JID_is_plain_user
    as (Hscan & Hget & _ & _ & _ & Hback).
  split.
  { apply (Hback companion w); reflexivity. }
  split.
  { destruct (Hscan companion (RowValues (activity_row "491711111" None None))
                (scan_row (activity_row "491711111" None None)))
      as (r & _ & _ & Hplain); [reflexivity | exact Hplain]. }
  destruct (Hget (JID companion) (snd (Insert companion w))
              (roundtrip_image companion) None) as [_ Hplain];
    [vm_compute; reflexivity | exact Hplain].
Defined.

(** ** Starting the user sessions *)

Lemma start_users_loop_spec (users : list main.User) :
  forall found : bool,
    main.start_users_loop users found
    = (map main.Go_Connect users,
       found || existsb (fun u => negb (types.IsEmpty (main.JID u))) users).
Proof.
  induction users as [|user rest IH]; intros found; cbn [main.start_users_loop].
  - cbn. rewrite orb_false_r. reflexivity.
  - rewrite IH. cbn [map existsb].
    destruct (types.IsEmpty (main.JID user)); cbn [negb];
      destruct found; reflexivity.
Qed.

Lemma StartUsers_actions (users : list main.User) (puppets : list Puppet) :
  main.StartUsers users puppets
  = ([main.Debugln "Starting users"]
     ++ map main.Go_Connect users
     ++ (if existsb (fun u => negb (types.IsEmpty (main.JID u))) users
         then [] else [main.SendGlobalBridgeState main.StateUnconfigured])
     ++ [main.Debugln "Starting custom puppets"]
     ++ map main.Go_StartCustomPuppet puppets)%list.
Proof.
  unfold main.StartUsers. rewrite start_users_loop_spec. cbn [orb].
  destruct (existsb _ users); reflexivity.
Qed.

Lemma connect_attempts_app (a b : list main.Action) :
  connect_attempts (a ++ b) = (connect_attempts a ++ connect_attempts b)%list.
Proof.
  induction a as [|x a IH]; cbn; [reflexivity|].
  destruct x; cbn; rewrite IH; reflexivity.
Qed.

Lemma connect_attempts_connects (users : list main.User) :
  connect_attempts (map main.Go_Connect users) = users.
Proof. induction users as [|u users IH]; cbn; [|rewrite IH]; reflexivity. Qed.

Lemma connect_attempts_custom (puppets : list Puppet) :
  connect_attempts (map main.Go_StartCustomPuppet puppets) = [].
Proof. induction puppets as [|p puppets IH]; cbn; [reflexivity | exact IH]. Qed.

Lemma connect_attempts_In (actions : list main.Action) (user : main.User) :
  In (main.Go_Connect user) actions <-> In user (connect_attempts actions).
Proof.
  induction actions as [|x actions IH]; cbn; [tauto|].
  destruct x; cbn; rewrite <- IH; split;
    try (intros [Hx|Hin]; [discriminate Hx | exact Hin]);
    try (intros Hin; right; exact Hin).
  - intros [Hx|Hin]; [left; injection Hx as Hx; exact Hx | right; exact Hin].
  - intros [Hx|Hin]; [left; rewrite Hx; reflexivity | right; exact Hin].
Qed.

(** C8 (as the code has it). [StartUsers] launches [Connect] once for every
    user that [GetAllUsers] returns, in order, whether or not its remote
    identifier is empty. The identifiers only decide whether the global
    unconfigured state is sent: it is sent iff every user has an empty
    one. *)
Theorem StartUsers_connects_every_user
        (users : list main.User) (puppets : list Puppet) :
  connect_attempts (main.StartUsers users puppets) = users
  /\ (forall user : main.User,
         In (main.Go_Connect user) (main.StartUsers users puppets)
         <-> In user users)
  /\ (In (main.SendGlobalBridgeState main.StateUnconfigured)
         (main.StartUsers users puppets)
      <-> forall user : main.User,
          In user users -> types.IsEmpty (main.JID user) = true).
Proof.
  assert (Hattempts : connect_attempts (main.StartUsers users puppets) = users).
  { rewrite StartUsers_actions, !connect_attempts_app.
    rewrite connect_attempts_connects, connect_attempts_custom.
    destruct (existsb _ users); cbn; rewrite app_nil_r; reflexivity. }
  split; [exact Hattempts|].
  split.
  { intros user. rewrite connect_attempts_In, Hattempts. reflexivity. }
  rewrite StartUsers_actions.
  destruct (existsb (fun u => negb (types.IsEmpty (main.JID u))) users)
    eqn:Hany.
  - split.
    + intros Hsent. exfalso.
      cbn in Hsent. destruct Hsent as [Hx|Hsent]; [discriminate Hx|].
      apply in_app_or in Hsent as [Hsent|Hsent].
      * apply in_map_iff in Hsent as (u & Hx & _). discriminate Hx.
      * cbn in Hsent. destruct Hsent as [Hx|Hsent]; [discriminate Hx|].
        apply in_map_iff in Hsent as (p & Hx & _). discriminate Hx.
    + intros Hall. exfalso.
      apply existsb_exists in Hany as (u & Hin & Hconf).
      rewrite (Hall u Hin) in Hconf. discriminate Hconf.
  - split.
    + intros _ user Hin.
      destruct (types.IsEmpty (main.JID user)) eqn:Hempty; [reflexivity|].
      exfalso.
      assert (Hex : existsb (fun u => negb (types.IsEmpty (main.JID u))) users
                    = true).
      { apply existsb_exists. exists user. split; [exact Hin|].
        rewrite Hempty. reflexivity. }
      rewrite Hex in Hany. discriminate Hany.
    + intros _. cbn. right. apply in_or_app. right. left. reflexivity.
Qed.

Lemma StartUsers_connects_every_user_witness :
  let configured :=
    {| main.MXID := "@ada:example.org";
       main.JID := types.NewJID "491700000" types.DefaultUserServer |} in
  let unconfigured :=
    {| main.MXID := "@bob:example.org"; main.JID := types.EmptyJID |} in
  connect_attempts (main.StartUsers [configured; unconfigured] [])
  = [configured; unconfigured]
  /\ In (main.SendGlobalBridgeState main.StateUnconfigured)
        (main.StartUsers [unconfigured] []).
Proof.
  intros configured unconfigured. split.
  - apply (StartUsers_connects_every_user [configured; unconfigured] []).
  - apply (StartUsers_connects_every_user [unconfigured] []).
    intros user [Huser|[]]. subst user. reflexivity.
Defined.

(** C8 as worded fails: the only user has an empty remote identifier, and
    [StartUsers] still launches its [Connect] (and sends the unconfigured
    state). *)
Lemma StartUsers_connects_unconfigured_user :
  let unconfigured :=
    {| main.MXID := "@bob:example.org"; main.JID := types.EmptyJID |} in
  types.IsEmpty (main.JID unconfigured) = true
  /\ main.StartUsers [unconfigured] []
     = [main.Debugln "Starting users";
        main.Go_Connect unconfigured;
        main.SendGlobalBridgeState main.StateUnconfigured;
        main.Debugln "Starting custom puppets"]
  /\ In (main.Go_Connect unconfigured) (main.StartUsers [unconfigured] []).
Proof.
  cbn. repeat split. right. left. reflexivity.
Qed.

(** * Further properties of the code *)

(** ** Rows and keys *)

Lemma Exec_on_failing_driver (q : Stmt) (w : World) :
  hd false (faults w) = true ->
  Exec q w
  = (Some ErrDriver,
     {| puppet_table := puppet_table w; faults := tl (faults w);
        clock := clock w; ticks := ticks w; journal := journal w |}).
Proof.
  intros Hfail. unfold Exec, bind, next_fault, ret. cbn [faults].
  rewrite Hfail. reflexivity.
Qed.

Lemma update_row_other (vars : SqlVars) (r : Row) :
  username r <> v_username vars -> update_row vars r = r.
Proof.
  intros Hother. unfold update_row.
  apply String.eqb_neq in Hother. rewrite Hother. reflexivity.
Qed.

Lemma update_row_own (vars : SqlVars) (r : Row) :
  username r = v_username vars ->
  update_row vars r
  = with_activity (first_activity_ts r) (last_activity_ts r) (row_of_vars vars).
Proof.
  intros Hown. unfold update_row.
  rewrite (proj2 (String.eqb_eq _ _) Hown).
  unfold with_activity, row_of_vars. cbn. rewrite Hown. reflexivity.
Qed.

Lemma update_row_username (vars : SqlVars) (r : Row) :
  username (update_row vars r) = username r.
Proof.
  unfold update_row. destruct (String.eqb (username r) (v_username vars));
    reflexivity.
Qed.

Lemma has_user_rows_of_user (user : string) (t : Table) :
  has_user user t = false <-> rows_of_user user t = [].
Proof.
  unfold rows_of_user. split.
  - apply select_absent_user.
  - induction t as [|r t IH]; cbn; [reflexivity|].
    destruct (String.eqb (username r) user); [discriminate|].
    intros Hnone. cbn. apply IH, Hnone.
Qed.

(** A write that only concerns the rows of one key leaves a table without
    that key as it is. *)
Lemma map_absent_user (f : Row -> Row) (user : string) (t : Table) :
  (forall r, username r <> user -> f r = r) ->
  has_user user t = false -> map f t = t.
Proof.
  intros Hother. induction t as [|r t IH]; cbn; [reflexivity|].
  intros Habsent. apply orb_false_elim in Habsent as [Hr Ht].
  apply String.eqb_neq in Hr. rewrite (Hother r Hr), (IH Ht). reflexivity.
Qed.

(** Selecting the rows of a key commutes with a write that keeps keys. *)
Lemma rows_of_user_map (f : Row -> Row) (user : string) (t : Table) :
  (forall r, username (f r) = username r) ->
  rows_of_user user (map f t) = map f (rows_of_user user t).
Proof.
  intros Hkey. unfold rows_of_user.
  induction t as [|r t IH]; cbn; [reflexivity|].
  rewrite Hkey. destruct (String.eqb (username r) user); cbn; rewrite IH;
    reflexivity.
Qed.

Lemma rows_of_user_head (user : string) (t : Table) (r : Row)
      (rest : list Row) :
  rows_of_user user t = r :: rest -> In r t /\ username r = user.
Proof.
  intros Hsel.
  assert (Hin : In r (rows_of_user user t)) by (rewrite Hsel; left; reflexivity).
  unfold rows_of_user in Hin. apply filter_In in Hin as [Hin Hkey].
  split; [exact Hin | apply String.eqb_eq, Hkey].
Qed.

(** ** Update *)

Lemma Update_on_quiet_driver (puppet : Puppet) (w : World) :
  hd false (faults w) = false ->
  Update puppet w
  = (None,
     {| puppet_table := map (update_row (sqlVariables puppet)) (puppet_table w);
        faults := tl (faults w); clock := clock w; ticks := ticks w;
        journal := journal w |}).
Proof.
  intros Hok. unfold Update. rewrite (Exec_on_quiet_driver _ w Hok).
  reflexivity.
Qed.

(** X1. [Update] does not look at the namespace of the JID. On a working
    driver it returns nil and rewrites the rows keyed by the user part of the
    JID: they take the fourteen values of [sqlVariables] and keep the two
    activity timestamps they had; every other row is as it was, so the row
    count is unchanged, and when no row has that key nothing changes at all
    (and no error tells). When the driver fails the error is returned and the
    table is as it was. *)
Theorem Update_replaces_profile_only (puppet : Puppet) (w : World) :
  (hd false (faults w) = false ->
   fst (Update puppet w) = None
   /\ Forall2
        (fun r r' =>
           (username r = types.User (JID puppet) ->
            r' = with_activity (first_activity_ts r) (last_activity_ts r)
                               (row_of_vars (sqlVariables puppet)))
           /\ (username r <> types.User (JID puppet) -> r' = r))
        (puppet_table w) (puppet_table (snd (Update puppet w)))
   /\ (has_user (types.User (JID puppet)) (puppet_table w) = false ->
       puppet_table (snd (Update puppet w)) = puppet_table w))
  /\ (hd false (faults w) = true ->
      fst (Update puppet w) = Some ErrDriver
      /\ puppet_table (snd (Update puppet w)) = puppet_table w).
Proof.
  split.
  - intros Hok. rewrite (Update_on_quiet_driver puppet w Hok).
    cbn [fst snd puppet_table]. split; [reflexivity|]. split.
    + induction (puppet_table w) as [|r t IH]; cbn [map]; constructor;
        [|exact IH].
      split; intros Hkey.
      * apply update_row_own. exact Hkey.
      * apply update_row_other. exact Hkey.
    + apply map_absent_user. intros r Hother.
      apply update_row_other. exact Hother.
  - intros Hfail. unfold Update.
    rewrite (Exec_on_failing_driver _ w Hfail). split; reflexivity.
Qed.

Lemma Update_replaces_profile_only_witness :
  let group :=
    {| JID := types.NewJID "491700000" types.GroupServer; Avatar := "g";
       AvatarURL := id.emptyContentURI; AvatarSet := true;
       Displayname := "Group"; NameQuality := 1; NameSet := true;
       ContactInfoSet := false; LastSync := time.zero; CustomMXID := "";
       AccessToken := ""; NextBatch := ""; EnablePresence := false;
       EnableReceipts := false; FirstActivityTs := 0; LastActivityTs := 0 |} in
  let w := quiet_world [activity_row "491700000" (Some 5) (Some 9);
                        activity_row "491711111" None None] 0 in
  (fst (Update group w) = None
   /\ puppet_table (snd (Update group w))
      = [with_activity (Some 5) (Some 9) (row_of_vars (sqlVariables group));
         activity_row "491711111" None None])
  /\ (fst (Update group (with_faults [true] w)) = Some ErrDriver
      /\ puppet_table (snd (Update group (with_faults [true] w)))
         = puppet_table w).
Proof.
  intros group w. split.
  - destruct (Update_replaces_profile_only group w) as [Hok _].
    destruct Hok as (Hnil & _ & _); [reflexivity|].
    split; [exact Hnil | reflexivity].
  - destruct (Update_replaces_profile_only group (with_faults [true] w))
      as [_ Hfail].
    apply Hfail. reflexivity.
Defined.

(** X2. After an [Update] on a working driver, [Get] on the same JID returns
    the puppet as [Insert] followed by [Get] would return it, except that the
    two activity timestamps are the ones stored in the row before the update:
    saving a puppet never resets its recorded activity. *)
Theorem Update_then_Get (puppet : Puppet) (w : World) (r : Row)
        (rest : list Row) :
  hd false (faults w) = false ->
  hd false (tl (faults w)) = false ->
  rows_of_user (types.User (JID puppet)) (puppet_table w) = r :: rest ->
  fst (Get (JID puppet) (snd (Update puppet w)))
  = (Some (set_FirstActivityTs
             (NullInt64_Int64 (first_activity_ts r))
             (set_LastActivityTs
                (NullInt64_Int64 (last_activity_ts r))
                (roundtrip_image puppet))),
     None).
Proof.
  intros Hok1 Hok2 Hsel.
  destruct (rows_of_user_head _ _ _ _ Hsel) as [_ Hkey].
  rewrite (Update_on_quiet_driver puppet w Hok1). cbn [snd].
  set (w' := {| puppet_table := _ |}).
  destruct (QueryOne_single_row
              (getPuppetByJIDQuery (types.User (JID puppet))) w'
              (update_row (sqlVariables puppet) r)
              (map (update_row (sqlVariables puppet)) rest))
    as (scanned & Hscan & Hget).
  - exact Hok2.
  - subst w'. cbn [puppet_table run_select].
    change (filter _ (map ?f ?t)) with (rows_of_user (types.User (JID puppet))
                                                     (map f t)).
    rewrite rows_of_user_map by apply update_row_username.
    rewrite Hsel. reflexivity.
  - unfold Get. rewrite Hget. f_equal. f_equal.
    rewrite update_row_own in Hscan by exact Hkey.
    cbn in Hscan. injection Hscan as Hscan. subst scanned.
    unfold roundtrip_image. cbn. reflexivity.
Qed.

Lemma Update_then_Get_witness :
  let contact :=
    {| JID := types.NewJID "491700000" types.DefaultUserServer; Avatar := "";
       AvatarURL := id.emptyContentURI; AvatarSet := false;
       Displayname := "Ada"; NameQuality := 50; NameSet := true;
       ContactInfoSet := false; LastSync := time.zero; CustomMXID := "";
       AccessToken := ""; NextBatch := ""; EnablePresence := true;
       EnableReceipts := true; FirstActivityTs := 0; LastActivityTs := 0 |} in
  let w := quiet_world [activity_row "491700000" (Some 5) (Some 9)] 0 in
  exists got,
    fst (Get (JID contact) (snd (Update contact w))) = (Some got, None)
    /\ Displayname got = "Ada"
    /\ FirstActivityTs got = 5 /\ LastActivityTs got = 9.
Proof.
  intros contact w. eexists. split.
  - apply (Update_then_Get contact w (activity_row "491700000" (Some 5) (Some 9))
             []); reflexivity.
  - repeat split.
Defined.

(** ** Insert and the existing rows *)

(** X3. [Insert] never touches a row that is already there: the table after
    the call is the table before it with at most one row appended, and a row
    is appended only for a standard user whose key is new, with nil returned.
    The statement is a plain insert, not an upsert: for a key that is already
    in the table a working driver reports the violation and the table is as
    it was. *)
Theorem Insert_never_overwrites (puppet : Puppet) (w : World) :
  (exists added : list Row,
      puppet_table (snd (Insert puppet w)) = (puppet_table w ++ added)%list
      /\ (added = []
          \/ (added = [row_of_vars (sqlVariables puppet)]
              /\ fst (Insert puppet w) = None
              /\ types.Server (JID puppet) = types.DefaultUserServer
              /\ has_user (types.User (JID puppet)) (puppet_table w) = false)))
  /\ (types.Server (JID puppet) = types.DefaultUserServer ->
      hd false (faults w) = false ->
      has_user (types.User (JID puppet)) (puppet_table w) = true ->
      fst (Insert puppet w) = Some ErrUniqueViolation
      /\ puppet_table (snd (Insert puppet w)) = puppet_table w).
Proof.
  split.
  - destruct (String.eqb_spec (types.Server (JID puppet))
                              types.DefaultUserServer) as [Huser|Hother].
    + rewrite (Insert_accepted puppet w Huser).
      destruct (hd false (faults w)) eqn:Hdriver.
      * exists []. rewrite (Exec_on_failing_driver _ w Hdriver).
        cbn [snd puppet_table]. rewrite app_nil_r. split; [reflexivity|].
        left. reflexivity.
      * destruct (has_user (types.User (JID puppet)) (puppet_table w))
          eqn:Hkey.
        -- exists []. rewrite (Exec_on_quiet_driver _ w Hdriver).
           cbn [run_stmt sqlVariables v_username]. rewrite Hkey.
           cbn [snd puppet_table]. rewrite app_nil_r. split; [reflexivity|].
           left. reflexivity.
        -- exists [row_of_vars (sqlVariables puppet)].
           rewrite (Exec_insert_new (sqlVariables puppet) w Hdriver Hkey).
           cbn [fst snd puppet_table]. split; [reflexivity|].
           right. repeat split; assumption.
    + exists []. rewrite (Insert_rejected puppet w Hother).
      cbn [snd puppet_table]. rewrite app_nil_r. split; [reflexivity|].
      left. reflexivity.
  - intros Huser Hdriver Hkey.
    rewrite (Insert_accepted puppet w Huser).
    rewrite (Exec_on_quiet_driver _ w Hdriver).
    cbn [run_stmt sqlVariables v_username]. rewrite Hkey.
    split; reflexivity.
Qed.

Lemma Insert_never_overwrites_witness :
  let contact :=
    {| JID := types.NewJID "491700000" types.DefaultUserServer; Avatar := "";
       AvatarURL := id.emptyContentURI; AvatarSet := false;
       Displayname := "Ada"; NameQuality := 50; NameSet := true;
       ContactInfoSet := false; LastSync := time.zero; CustomMXID := "";
       AccessToken := ""; NextBatch := ""; EnablePresence := true;
       EnableReceipts := true; FirstActivityTs := 0; LastActivityTs := 0 |} in
  let w := snd (Insert contact (quiet_world [] 0)) in
  fst (Insert contact w) = Some ErrUniqueViolation
  /\ puppet_table (snd (Insert contact w))
     = [row_of_vars (sqlVariables contact)].
Proof.
  intros contact w.
  destruct (Insert_never_overwrites contact w) as [_ Hdup].
  apply Hdup; reflexivity.
Defined.

(** ** Looking puppets up *)

Lemma QueryOne_on_failing_driver (q : Select) (w : World) :
  hd false (faults w) = true -> fst (QueryOne q w) = (None, Some ErrDriver).
Proof.
  intros Hfail. unfold QueryOne, QueryRow, bind, next_fault, ret.
  cbn [faults]. rewrite Hfail. reflexivity.
Qed.

Lemma QueryOne_no_row (q : Select) (w : World) :
  hd false (faults w) = false ->
  run_select q (puppet_table w) = [] ->
  fst (QueryOne q w) = (None, None).
Proof.
  intros Hok Hnone. unfold QueryOne, QueryRow, bind, next_fault, get_table, ret.
  cbn [faults]. rewrite Hok. cbn [puppet_table]. rewrite Hnone. reflexivity.
Qed.

Lemma QueryOne_keeps_table (q : Select) (w : World) :
  puppet_table (snd (QueryOne q w)) = puppet_table w
  /\ journal (snd (QueryOne q w)) = journal w.
Proof.
  unfold QueryOne, QueryRow, bind, next_fault, get_table, ret.
  cbn [faults]. destruct (hd false (faults w)); cbn.
  - split; reflexivity.
  - destruct (run_select q (puppet_table w)); cbn; split; reflexivity.
Qed.

(** X4. [Get] looks a puppet up by the user part of the JID alone. On a
    working driver it finds a puppet exactly when the table has a row with
    that key, and reports no error either way: a miss is the pair (nil, nil).
    Only a failure of the driver gives an error, and then no puppet. The
    lookup writes nothing, in the table or in the log. *)
Theorem Get_hit_or_silent_miss (jid : types.JID) (w : World) :
  (hd false (faults w) = false ->
   (has_user (types.User jid) (puppet_table w) = true ->
    exists got, fst (Get jid w) = (Some got, None)
                /\ types.User (JID got) = types.User jid)
   /\ (has_user (types.User jid) (puppet_table w) = false ->
       fst (Get jid w) = (None, None)))
  /\ (hd false (faults w) = true -> fst (Get jid w) = (None, Some ErrDriver))
  /\ puppet_table (snd (Get jid w)) = puppet_table w
  /\ journal (snd (Get jid w)) = journal w.
Proof.
  split.
  { intros Hok. split.
    - intros Hkey.
      destruct (rows_of_user (types.User jid) (puppet_table w))
        as [|r rest] eqn:Hsel.
      + apply has_user_rows_of_user in Hsel. rewrite Hsel in Hkey.
        discriminate Hkey.
      + destruct (QueryOne_single_row (getPuppetByJIDQuery (types.User jid))
                    w r rest Hok Hsel) as (scanned & Hscan & Hget).
        exists scanned. split; [exact Hget|].
        cbn in Hscan. injection Hscan as Hscan. subst scanned. cbn.
        apply (rows_of_user_head _ _ _ _ Hsel).
    - intros Hkey. apply QueryOne_no_row; [exact Hok|].
      apply has_user_rows_of_user, Hkey. }
  split.
  { intros Hfail. apply QueryOne_on_failing_driver, Hfail. }
  apply QueryOne_keeps_table.
Qed.

Lemma Get_hit_or_silent_miss_witness :
  let w := quiet_world [activity_row "491700000" None None] 0 in
  (exists got,
      fst (Get (types.NewJID "491700000" types.GroupServer) w)
      = (Some got, None)
      /\ types.User (JID got) = "491700000")
  /\ fst (Get (types.NewJID "491711111" types.DefaultUserServer) w)
     = (None, None)
  /\ fst (Get (types.NewJID "491700000" types.DefaultUserServer)
              (with_faults [true] w))
     = (None, Some ErrDriver).
Proof.
  intros w. split.
  - destruct (Get_hit_or_silent_miss
                (types.NewJID "491700000" types.GroupServer) w)
      as [Hok _].
    destruct Hok as [Hhit _]; [reflexivity|].
    apply Hhit. reflexivity.
  - split.
    + destruct (Get_hit_or_silent_miss
                  (types.NewJID "491711111" types.DefaultUserServer) w)
        as [Hok _].
      destruct Hok as [_ Hmiss]; [reflexivity|].
      apply Hmiss. reflexivity.
    + destruct (Get_hit_or_silent_miss
                  (types.NewJID "491700000" types.DefaultUserServer)
                  (with_faults [true] w)) as (_ & Hfail & _).
      apply Hfail. reflexivity.
Defined.

Lemma filter_nil_existsb {A : Type} (P : A -> bool) (l : list A) :
  filter P l = [] <-> existsb P l = false.
Proof.
  induction l as [|a l IH]; cbn; [tauto|].
  destruct (P a); cbn; [split; discriminate | exact IH].
Qed.

Lemma QueryMany_result (q : Select) (w : World) :
  fst (QueryMany q w)
  = if hd false (faults w) then ([], Some ErrDriver)
    else (map scan_row (run_select q (puppet_table w)), None).
Proof.
  unfold QueryMany, bind, next_fault, get_table, ret. cbn [faults].
  destruct (hd false (faults w)); [reflexivity|].
  cbn [puppet_table]. rewrite scan_all_rows. reflexivity.
Qed.

Lemma filter_map_commute {A B : Type} (f : A -> B) (P : B -> bool)
      (l : list A) :
  filter P (map f l) = map f (filter (fun a => P (f a)) l).
Proof.
  induction l as [|a l IH]; cbn; [reflexivity|].
  destruct (P (f a)); cbn; rewrite IH; reflexivity.
Qed.

(** X5. [GetByCustomMXID] returns a puppet only together with a nil error,
    and the puppet it returns carries the MXID that was asked for. On a
    working driver it finds a puppet exactly when some row stores that MXID;
    a row whose custom_mxid is NULL is never found, not even when the empty
    MXID is asked for, although such a row scans to a puppet with an empty
    [CustomMXID]. *)
Theorem GetByCustomMXID_matches (mxid : string) (w : World) :
  (forall (got : Puppet) (err : option error),
      fst (GetByCustomMXID mxid w) = (Some got, err) ->
      err = None /\ CustomMXID got = mxid)
  /\ (hd false (faults w) = false ->
      (has_custom_mxid mxid (puppet_table w) = true ->
       exists got, fst (GetByCustomMXID mxid w) = (Some got, None))
      /\ (has_custom_mxid mxid (puppet_table w) = false ->
          fst (GetByCustomMXID mxid w) = (None, None))).
Proof.
  split.
  - intros got err Hget. split.
    + unfold GetByCustomMXID, QueryOne, QueryRow, bind, next_fault, get_table,
        ret in Hget. cbn [faults] in Hget.
      destruct (hd false (faults w)); cbn in Hget; [discriminate|].
      destruct (filter _ (puppet_table w)); cbn in Hget; [discriminate|].
      injection Hget as _ Herr. symmetry. exact Herr.
    + unfold GetByCustomMXID in Hget.
      apply QueryOne_scanned in Hget as (r & Hin & Hgot). subst got.
      cbn [run_select] in Hin. apply filter_In in Hin as [_ Hmatch].
      unfold scan_row. cbn.
      destruct (custom_mxid r) as [m|]; [|discriminate].
      apply String.eqb_eq in Hmatch. exact Hmatch.
  - intros Hok. unfold GetByCustomMXID, has_custom_mxid. split.
    + intros Hsome.
      destruct (run_select (getPuppetByCustomMXIDQuery mxid) (puppet_table w))
        as [|r rest] eqn:Hsel.
      * cbn [run_select] in Hsel. apply filter_nil_existsb in Hsel.
        rewrite Hsel in Hsome. discriminate Hsome.
      * destruct (QueryOne_single_row _ w r rest Hok Hsel)
          as (scanned & _ & Hget).
        exists scanned. exact Hget.
    + intros Hnone. apply QueryOne_no_row; [exact Hok|].
      cbn [run_select]. apply filter_nil_existsb. exact Hnone.
Qed.

Lemma GetByCustomMXID_matches_witness :
  let w := quiet_world [activity_row "491700000" None None] 0 in
  fst (GetByCustomMXID "" w) = (None, None)
  /\ CustomMXID (scan_row (activity_row "491700000" None None)) = "".
Proof.
  intros w. split; [|reflexivity].
  destruct (GetByCustomMXID_matches "" w) as [_ Hok].
  destruct Hok as [_ Hmiss]; [reflexivity|].
  apply Hmiss. reflexivity.
Defined.

(** X6. Whatever the driver does, [GetAllWithCustomMXID] returns the puppets
    of [GetAll] that have a non-empty custom MXID, in the same order and with
    the same error; so none of the puppets it returns has an empty
    [CustomMXID]. On a working driver [GetAll] returns one puppet per row, in
    table order, whose user part is the key of the row. *)
Theorem GetAllWithCustomMXID_filters_GetAll (w : World) :
  fst (fst (GetAllWithCustomMXID w))
  = filter is_custom (fst (fst (GetAll w)))
  /\ snd (fst (GetAllWithCustomMXID w)) = snd (fst (GetAll w))
  /\ Forall (fun got => CustomMXID got <> "") (fst (fst (GetAllWithCustomMXID w)))
  /\ (hd false (faults w) = false ->
      snd (fst (GetAll w)) = None
      /\ map (fun got => types.User (JID got)) (fst (fst (GetAll w)))
         = map username (puppet_table w)).
Proof.
  unfold GetAllWithCustomMXID, GetAll. rewrite !QueryMany_result.
  destruct (hd false (faults w)); cbn [fst snd].
  - split; [reflexivity|]. split; [reflexivity|].
    split; [apply Forall_nil | discriminate].
  - assert (Hfilter :
              map scan_row
                  (run_select getAllPuppetsWithCustomMXIDQuery (puppet_table w))
              = filter is_custom
                       (map scan_row
                            (run_select getAllPuppetsQuery (puppet_table w)))).
    { rewrite filter_map_commute. cbn [run_select]. f_equal.
      apply filter_ext. intros r. unfold is_custom, scan_row. cbn.
      destruct (custom_mxid r); reflexivity. }
    split; [exact Hfilter|]. split; [reflexivity|]. split.
    + rewrite Hfilter. apply Forall_forall. intros got Hin.
      apply filter_In in Hin as [_ Hcustom]. unfold is_custom in Hcustom.
      intros Hempty. rewrite Hempty in Hcustom. discriminate Hcustom.
    + intros _. split; [reflexivity|].
      cbn [run_select]. rewrite map_map. reflexivity.
Qed.

Lemma GetAllWithCustomMXID_filters_GetAll_witness :
  let custom :=
    {| username := "491700000"; avatar := None; avatar_url := None;
       avatar_set := None; displayname := None; name_quality := None;
       name_set := None; contact_info_set := None; last_sync := None;
       custom_mxid := Some "@ada:example.org"; access_token := None;
       next_batch := None; enable_presence := None; enable_receipts := None;
       first_activity_ts := None; last_activity_ts := None |} in
  let w := quiet_world [activity_row "491711111" None None; custom] 0 in
  map (fun got => types.User (JID got)) (fst (fst (GetAll w)))
  = ["491711111"; "491700000"]
  /\ map (fun got => types.User (JID got)) (fst (fst (GetAllWithCustomMXID w)))
     = ["491700000"].
Proof.
  intros custom w.
  destruct (GetAllWithCustomMXID_filters_GetAll w)
    as (Hfilter & _ & _ & Hall).
  destruct Hall as [_ Hkeys]; [reflexivity|].
  split; [exact Hkeys|]. rewrite Hfilter. reflexivity.
Defined.

(** ** Activity updates and the table *)

Lemma same_profile_refl (r : Row) : same_profile r r.
Proof. unfold same_profile. repeat split. Qed.

Lemma only_activity_of_refl (user : string) (r : Row) :
  only_activity_of user r r.
Proof. split; [apply same_profile_refl | reflexivity]. Qed.

Lemma only_activity_of_last (ts : Z) (user : string) (r : Row) :
  only_activity_of user r (set_last_activity_ts ts user r).
Proof.
  unfold set_last_activity_ts.
  destruct (String.eqb_spec (username r) user) as [Hown|Hother].
  - split; [unfold same_profile; cbn; repeat split | contradiction].
  - apply only_activity_of_refl.
Qed.

Lemma only_activity_of_first (ts : Z) (user : string) (r : Row) :
  only_activity_of user r (set_first_activity_ts ts user r).
Proof.
  unfold set_first_activity_ts.
  destruct (first_activity_ts r); [apply only_activity_of_refl|].
  destruct (String.eqb_spec (username r) user) as [Hown|Hother].
  - split; [unfold same_profile; cbn; repeat split | contradiction].
  - apply only_activity_of_refl.
Qed.

Lemma only_activity_of_trans (user : string) (r1 r2 r3 : Row) :
  only_activity_of user r1 r2 -> only_activity_of user r2 r3 ->
  only_activity_of user r1 r3.
Proof.
  intros [Hp12 Ho12] [Hp23 Ho23]. split.
  - unfold same_profile in *.
    repeat match goal with H : _ /\ _ |- _ => destruct H end.
    repeat split; congruence.
  - intros Hother. rewrite Ho23; [apply Ho12, Hother|].
    rewrite (Ho12 Hother). exact Hother.
Qed.

Lemma Forall2_map_related (R : Row -> Row -> Prop) (f : Row -> Row)
      (t : Table) :
  (forall r, R r (f r)) -> Forall2 R t (map f t).
Proof.
  intros Hf. induction t as [|r t IH]; cbn; constructor; [apply Hf | exact IH].
Qed.

(** The table after an update that passes the guard, as the two writes leave
    it: each write counts only when the driver carries it out, and the second
    is attempted only when the puppet has no first activity in memory. *)
Lemma UpdateActivityTs_table (puppet : Puppet) (ts : Z) (w : World) :
  LastActivityTs puppet <= ts ->
  puppet_table (snd (UpdateActivityTs puppet ts w))
  = (let user := types.User (JID puppet) in
     let t1 := if hd false (faults w) then puppet_table w
               else map (set_last_activity_ts ts user) (puppet_table w) in
     if FirstActivityTs puppet =? 0
     then if hd false (tl (faults w)) then t1
          else map (set_first_activity_ts ts user) t1
     else t1).
Proof.
  intros Hle. unfold UpdateActivityTs.
  destruct (Z.gtb_spec (LastActivityTs puppet) ts) as [Hgt|_]; [lia|].
  unfold bind, Exec, bind, next_fault, Log, get_table, put_table, ret.
  cbn [FirstActivityTs set_LastActivityTs set_FirstActivityTs faults journal
       puppet_table run_stmt tl LastActivityTs JID].
  destruct (faults w) as [|f1 [|f2 fs]]; cbn [hd tl];
    try destruct f1; try destruct f2;
    destruct (FirstActivityTs puppet =? 0); reflexivity.
Qed.

(** X7. An activity update changes nothing but the two activity timestamps,
    whatever the driver does. In memory every other field of the puppet is
    kept. In the table every row keeps its key and its fourteen profile
    columns, no row is added or removed, and the rows of other keys are as
    they were. *)
Theorem UpdateActivityTs_only_activity (puppet : Puppet) (ts : Z) (w : World) :
  same_persisted_fields puppet (fst (UpdateActivityTs puppet ts w))
  /\ Forall2 (only_activity_of (types.User (JID puppet)))
             (puppet_table w)
             (puppet_table (snd (UpdateActivityTs puppet ts w))).
Proof.
  split.
  - rewrite UpdateActivityTs_in_memory. unfold activity_step.
    destruct (LastActivityTs puppet >? ts);
      [|destruct (FirstActivityTs puppet =? 0)];
      unfold same_persisted_fields; cbn; repeat split.
  - destruct (Z.gtb_spec (LastActivityTs puppet) ts) as [Hgt|Hle].
    + rewrite UpdateActivityTs_older_untouched by lia. cbn [snd].
      rewrite <- (map_id (puppet_table w)) at 2.
      apply Forall2_map_related. apply only_activity_of_refl.
    + rewrite (UpdateActivityTs_table puppet ts w Hle). cbn zeta.
      destruct (hd false (faults w)), (FirstActivityTs puppet =? 0),
        (hd false (tl (faults w)));
        rewrite ?map_map;
        first [ apply Forall2_map_related; intros r;
                first [ apply only_activity_of_last
                      | apply only_activity_of_first
                      | eapply only_activity_of_trans;
                        [apply only_activity_of_last
                        |apply only_activity_of_first] ]
              | rewrite <- (map_id (puppet_table w)) at 2;
                apply Forall2_map_related; apply only_activity_of_refl ].
Qed.

Lemma set_last_activity_ts_other (ts : Z) (user : string) (r : Row) :
  username r <> user -> set_last_activity_ts ts user r = r.
Proof. apply (only_activity_of_last ts user r). Qed.

Lemma set_first_activity_ts_other (ts : Z) (user : string) (r : Row) :
  username r <> user -> set_first_activity_ts ts user r = r.
Proof. apply (only_activity_of_first ts user r). Qed.

Lemma set_last_activity_ts_username (ts : Z) (user : string) (r : Row) :
  username (set_last_activity_ts ts user r) = username r.
Proof. apply (only_activity_of_last ts user r). Qed.

Lemma set_first_activity_ts_username (ts : Z) (user : string) (r : Row) :
  username (set_first_activity_ts ts user r) = username r.
Proof. apply (only_activity_of_first ts user r). Qed.

(** X8. An activity update for a puppet that has no row is lost without a
    trace: with a working driver both statements succeed on zero rows, so the
    table is as it was and the log holds the debug line and no warning, while
    the puppet in memory carries the new timestamp. This is what happens to a
    puppet that [Insert] declined, unless another row has its user part. *)
Theorem UpdateActivityTs_without_row (puppet : Puppet) (ts : Z) (w : World) :
  hd false (faults w) = false ->
  hd false (tl (faults w)) = false ->
  has_user (types.User (JID puppet)) (puppet_table w) = false ->
  LastActivityTs puppet <= ts ->
  puppet_table (snd (UpdateActivityTs puppet ts w)) = puppet_table w
  /\ journal (snd (UpdateActivityTs puppet ts w))
     = (journal w ++ [(DebugLevel, "Updating activity time")])%list
  /\ LastActivityTs (fst (UpdateActivityTs puppet ts w)) = ts.
Proof.
  intros Hok1 Hok2 Habsent Hle. split.
  - rewrite (UpdateActivityTs_table puppet ts w Hle). cbn zeta.
    rewrite Hok1, Hok2.
    rewrite (map_absent_user _ _ _ (set_last_activity_ts_other ts _) Habsent).
    destruct (FirstActivityTs puppet =? 0); [|reflexivity].
    apply (map_absent_user _ _ _ (set_first_activity_ts_other ts _) Habsent).
  - split.
    + rewrite (UpdateActivityTs_journal puppet ts w Hle), Hok1, Hok2.
      destruct (FirstActivityTs puppet =? 0); reflexivity.
    + rewrite UpdateActivityTs_in_memory.
      apply activity_step_newer, Hle.
Qed.

Lemma UpdateActivityTs_without_row_witness :
  let status :=
    {| JID := types.NewJID "status" types.BroadcastServer; Avatar := "";
       AvatarURL := id.emptyContentURI; AvatarSet := false;
       Displayname := "Status"; NameQuality := 0; NameSet := false;
       ContactInfoSet := false; LastSync := time.zero; CustomMXID := "";
       AccessToken := ""; NextBatch := ""; EnablePresence := true;
       EnableReceipts := true; FirstActivityTs := 0; LastActivityTs := 0 |} in
  let w := snd (Insert status
                       (quiet_world [activity_row "491700000" None None] 0)) in
  puppet_table (snd (UpdateActivityTs status 1700000000 w))
  = [activity_row "491700000" None None]
  /\ LastActivityTs (fst (UpdateActivityTs status 1700000000 w)) = 1700000000.
Proof.
  intros status w.
  destruct (UpdateActivityTs_without_row status 1700000000 w)
    as (Htable & _ & Hlast); try reflexivity.
  - cbn. lia.
  - split; [exact Htable | exact Hlast].
Defined.

Lemma UpdateActivityTs_faults_nil (puppet : Puppet) (ts : Z) (w : World) :
  faults w = [] -> faults (snd (UpdateActivityTs puppet ts w)) = [].
Proof.
  intros Hquiet. unfold UpdateActivityTs.
  destruct (LastActivityTs puppet >? ts); [exact Hquiet|].
  unfold bind, Exec, bind, next_fault, Log, get_table, put_table, ret.
  cbn [FirstActivityTs set_LastActivityTs set_FirstActivityTs faults journal
       puppet_table run_stmt tl LastActivityTs JID].
  rewrite Hquiet. cbn.
  destruct (FirstActivityTs puppet =? 0); reflexivity.
Qed.

Lemma Scan_activity (receiver scanned : Puppet) (r : Row) :
  Scan receiver (RowValues r) = inl scanned ->
  FirstActivityTs scanned = NullInt64_Int64 (first_activity_ts r)
  /\ LastActivityTs scanned = NullInt64_Int64 (last_activity_ts r).
Proof.
  cbn. intros Hscan. injection Hscan as Hscan. subst scanned.
  split; reflexivity.
Qed.

(** X9. With a working driver an activity update keeps the puppet in memory
    and its row in step: if [Get] would have read back the two timestamps the
    puppet holds, it still does after the update. The timestamp 0 is the one
    exception, because in memory it means that no first activity is recorded:
    the row must not store 0 as its first activity. *)
Theorem UpdateActivityTs_then_Get (puppet : Puppet) (ts : Z) (w : World)
        (r : Row) (rest : list Row) :
  faults w = [] ->
  rows_of_user (types.User (JID puppet)) (puppet_table w) = r :: rest ->
  FirstActivityTs puppet = NullInt64_Int64 (first_activity_ts r) ->
  LastActivityTs puppet = NullInt64_Int64 (last_activity_ts r) ->
  first_activity_ts r <> Some 0 ->
  exists got : Puppet,
    fst (Get (JID puppet) (snd (UpdateActivityTs puppet ts w)))
    = (Some got, None)
    /\ FirstActivityTs got
       = FirstActivityTs (fst (UpdateActivityTs puppet ts w))
    /\ LastActivityTs got
       = LastActivityTs (fst (UpdateActivityTs puppet ts w)).
Proof.
  intros Hquiet Hsel Hfirst Hlast Hnonzero.
  destruct (rows_of_user_head _ _ _ _ Hsel) as [_ Hkey].
  pose proof (UpdateActivityTs_faults_nil puppet ts w Hquiet) as Hquiet'.
  rewrite UpdateActivityTs_in_memory.
  destruct (Z.gtb_spec (LastActivityTs puppet) ts) as [Hgt|Hle].
  - (* the guard returns *)
    rewrite UpdateActivityTs_older_untouched by lia. cbn [snd].
    destruct (QueryOne_single_row
                (getPuppetByJIDQuery (types.User (JID puppet))) w r rest)
      as (scanned & Hscan & Hget); [rewrite Hquiet; reflexivity | exact Hsel |].
    exists scanned. split; [exact Hget|].
    cbn in Hscan. injection Hscan as Hscan. subst scanned.
    unfold activity_step.
    destruct (Z.gtb_spec (LastActivityTs puppet) ts); [|lia].
    cbn. split; congruence.
  - (* both writes are carried out *)
    set (w' := snd (UpdateActivityTs puppet ts w)) in *.
    assert (Htable : exists f : Row -> Row,
               puppet_table w' = map f (puppet_table w)
               /\ (forall x, username (f x) = username x)
               /\ f = (if FirstActivityTs puppet =? 0
                       then fun x => set_first_activity_ts
                                       ts (types.User (JID puppet))
                                       (set_last_activity_ts
                                          ts (types.User (JID puppet)) x)
                       else set_last_activity_ts ts (types.User (JID puppet)))).
    { subst w'. rewrite (UpdateActivityTs_table puppet ts w Hle). cbn zeta.
      rewrite Hquiet. cbn [hd tl].
      destruct (FirstActivityTs puppet =? 0).
      - eexists. split; [apply map_map|]. split; [|reflexivity].
        intros x. rewrite set_first_activity_ts_username.
        apply set_last_activity_ts_username.
      - eexists. split; [reflexivity|]. split; [|reflexivity].
        apply set_last_activity_ts_username. }
    destruct Htable as (f & Htable & Hfkey & Hf).
    destruct (QueryOne_single_row
                (getPuppetByJIDQuery (types.User (JID puppet))) w'
                (f r) (map f rest)) as (scanned & Hscan & Hget).
    + rewrite Hquiet'. reflexivity.
    + cbn [run_select]. rewrite Htable.
      change (filter _ (map f ?t))
        with (rows_of_user (types.User (JID puppet)) (map f t)).
      rewrite (rows_of_user_map f _ _ Hfkey), Hsel. reflexivity.
    + exists scanned. split; [exact Hget|].
      destruct (Scan_activity _ _ _ Hscan) as [Hsf Hsl]. rewrite Hsf, Hsl.
      destruct (activity_step_newer puppet ts Hle) as [Hl' Hf'].
      rewrite Hl', Hf'. subst f.
      pose proof (proj2 (String.eqb_eq _ _) Hkey) as Hkeyb.
      destruct (Z.eqb_spec (FirstActivityTs puppet) 0) as [Hzero|Hset].
      * unfold set_first_activity_ts, set_last_activity_ts.
        rewrite Hkeyb. cbn [first_activity_ts last_activity_ts username].
        destruct (first_activity_ts r) as [f0|] eqn:Hcol.
        -- cbn in Hfirst. exfalso. apply Hnonzero. congruence.
        -- rewrite Hkeyb. cbn. split; reflexivity.
      * unfold set_last_activity_ts. rewrite Hkeyb. cbn.
        split; [symmetry; exact Hfirst | reflexivity].
Qed.

Lemma UpdateActivityTs_then_Get_witness :
  let w := quiet_world [activity_row "491700000" None None;
                        activity_row "491711111" (Some 7) (Some 9)] 0 in
  let loaded := scan_row (activity_row "491700000" None None) in
  exists got : Puppet,
    fst (Get (JID loaded) (snd (UpdateActivityTs loaded 1700000000 w)))
    = (Some got, None)
    /\ FirstActivityTs got = 1700000000
    /\ LastActivityTs got = 1700000000.
Proof.
  intros w loaded.
  destruct (UpdateActivityTs_then_Get loaded 1700000000 w
              (activity_row "491700000" None None) [])
    as (got & Hget & Hfirst & Hlast); try reflexivity.
  - discriminate.
  - exists got. split; [exact Hget|].
    rewrite Hfirst, Hlast. split; reflexivity.
Defined.

(** The exception of X9 is real: a row that stores 0 as its first activity
    scans to a puppet without first activity; the next update sets the first
    activity in memory and leaves the stored 0. *)
Lemma UpdateActivityTs_stored_zero_diverges :
  let w := quiet_world [activity_row "491700000" (Some 0) (Some 0)] 0 in
  let loaded := scan_row (activity_row "491700000" (Some 0) (Some 0)) in
  FirstActivityTs (fst (UpdateActivityTs loaded 5 w)) = 5
  /\ exists got : Puppet,
      fst (Get (JID loaded) (snd (UpdateActivityTs loaded 5 w)))
      = (Some got, None)
      /\ FirstActivityTs got = 0.
Proof.
  cbn. split; [reflexivity|]. eexists. split; reflexivity.
Qed.

(** ** Sequences of activity updates *)

Lemma activity_step_last_max (puppet : Puppet) (ts : Z) :
  LastActivityTs (activity_step puppet ts) = Z.max (LastActivityTs puppet) ts.
Proof.
  unfold activity_step.
  destruct (Z.gtb_spec (LastActivityTs puppet) ts) as [Hgt|Hle]; [lia|].
  destruct (FirstActivityTs puppet =? 0); cbn; lia.
Qed.

Lemma activity_steps_last_max (tss : list Z) :
  forall puppet : Puppet,
    LastActivityTs (fold_left activity_step tss puppet)
    = fold_left Z.max tss (LastActivityTs puppet).
Proof.
  induction tss as [|ts rest IH]; intros puppet; cbn [fold_left];
    [reflexivity|].
  rewrite IH, activity_step_last_max. reflexivity.
Qed.

Lemma fold_max_permutation (l l' : list Z) :
  Permutation l l' ->
  forall a : Z, fold_left Z.max l a = fold_left Z.max l' a.
Proof.
  induction 1 as [|x l l' _ IH|x y l|l l' l'' _ IH1 _ IH2]; intros a;
    cbn [fold_left].
  - reflexivity.
  - apply IH.
  - f_equal. lia.
  - rewrite IH1. apply IH2.
Qed.

(** X10. After any sequence of activity updates the last-activity timestamp
    in memory is the maximum of its initial value and the timestamps
    delivered, whatever the driver did; so it does not depend on the order of
    delivery. The first-activity timestamp does: on a puppet without first
    activity it becomes the first timestamp delivered (when that one passes
    the guard and is not 0), not the earliest one. *)
Theorem UpdateActivityTs_seq_last_is_max
        (puppet : Puppet) (tss : list Z) (w : World) :
  LastActivityTs (fst (UpdateActivityTs_seq puppet tss w))
  = fold_left Z.max tss (LastActivityTs puppet)
  /\ (forall (tss' : list Z) (w' : World),
         Permutation tss tss' ->
         LastActivityTs (fst (UpdateActivityTs_seq puppet tss' w'))
         = LastActivityTs (fst (UpdateActivityTs_seq puppet tss w)))
  /\ (forall (ts : Z) (rest : list Z),
         tss = ts :: rest ->
         FirstActivityTs puppet = 0 -> LastActivityTs puppet <= ts ->
         ts <> 0 ->
         FirstActivityTs (fst (UpdateActivityTs_seq puppet tss w)) = ts).
Proof.
  split; [|split].
  - rewrite UpdateActivityTs_seq_in_memory. apply activity_steps_last_max.
  - intros tss' w' Hperm.
    rewrite !UpdateActivityTs_seq_in_memory, !activity_steps_last_max.
    symmetry. apply fold_max_permutation, Hperm.
  - intros ts rest Htss Hunset Hle Hnonzero. subst tss.
    rewrite UpdateActivityTs_seq_in_memory. cbn [fold_left].
    destruct (activity_step_newer puppet ts Hle) as [_ Hfirst].
    rewrite Hunset in Hfirst. cbn in Hfirst.
    rewrite activity_steps_first_frozen; rewrite Hfirst; [reflexivity|].
    exact Hnonzero.
Qed.

Lemma UpdateActivityTs_seq_last_is_max_witness :
  LastActivityTs (fst (UpdateActivityTs_seq newPuppet [200; 100; 50]
                         (quiet_world [] 0)))
  = LastActivityTs (fst (UpdateActivityTs_seq newPuppet [100; 50; 200]
                           (with_faults [true; true] (quiet_world [] 0))))
  /\ FirstActivityTs (fst (UpdateActivityTs_seq newPuppet [100; 50; 200]
                             (quiet_world [] 0))) = 100
  /\ FirstActivityTs (fst (UpdateActivityTs_seq newPuppet [200; 100; 50]
                             (quiet_world [] 0))) = 200.
Proof.
  split; [|split].
  - apply (UpdateActivityTs_seq_last_is_max newPuppet [100; 50; 200]
             (with_faults [true; true] (quiet_world [] 0))).
    apply (Permutation_app_comm [100; 50] [200]).
  - apply (UpdateActivityTs_seq_last_is_max newPuppet [100; 50; 200]
             (quiet_world [] 0) ) with (rest := [50; 200]);
      [reflexivity | reflexivity | cbn; lia | discriminate].
  - apply (UpdateActivityTs_seq_last_is_max newPuppet [200; 100; 50]
             (quiet_world [] 0) ) with (rest := [100; 50]);
      [reflexivity | reflexivity | cbn; lia | discriminate].
Defined.

(** ** Loading a puppet and saving it again *)

Lemma String_of_parsed (uri : id.ContentURI) :
  well_formed_uri uri \/ uri = id.emptyContentURI ->
  id.String_ (fst (id.ParseContentURI (id.String_ uri))) = id.String_ uri.
Proof.
  intros [Hwf|Hempty].
  - rewrite (ContentURI_roundtrip uri Hwf). reflexivity.
  - subst uri. reflexivity.
Qed.

Lemma stored_last_sync_back (s : Z) :
  0 <= s ->
  (if negb (time.IsZero (if s >? 0 then time.Unix s 0 else time.zero))
   then time.Unix_of (if s >? 0 then time.Unix s 0 else time.zero)
   else 0) = s.
Proof.
  intros Hs. destruct (Z.gtb_spec s 0) as [Hpos|Hzero].
  - change (time.Unix s 0)
      with {| time.sec := s + time.unixToInternal; time.nsec := 0 |}.
    unfold time.IsZero, time.Unix_of. cbn [time.sec time.nsec].
    assert (Hu : 0 < time.unixToInternal) by (vm_compute; reflexivity).
    destruct (Z.eqb_spec (s + time.unixToInternal) 0) as [Heq|_]; [lia|].
    cbn [andb negb]. lia.
  - cbn. lia.
Qed.

(** Saving the puppet scanned from a canonical row writes the row back. *)
Lemma load_save_row (r : Row) :
  canonical_row r -> update_row (sqlVariables (scan_row r)) r = r.
Proof.
  destruct r as [user av url avset name quality nameset contact sync mxid
                 token batch presence receipts first last].
  unfold canonical_row. cbn.
  intros (Hav & (uri & Huri & Hurl) & Havset & Hname & (q & Hq & Hq8)
          & Hnameset & Hcontact & (s & Hsync & Hs) & Hmxid & Htoken & Hbatch
          & Hpresence & Hreceipts).
  unfold update_row. cbn. rewrite String.eqb_refl.
  subst url quality sync.
  destruct av; [|contradiction]. destruct avset; [|contradiction].
  destruct name; [|contradiction]. destruct nameset; [|contradiction].
  destruct contact; [|contradiction]. destruct mxid; [|contradiction].
  destruct token; [|contradiction]. destruct batch; [|contradiction].
  destruct presence; [|contradiction]. destruct receipts; [|contradiction].
  cbn. rewrite (String_of_parsed uri Huri), (wrap8_small q Hq8).
  f_equal. f_equal. exact (stored_last_sync_back s Hs).
Qed.

Lemma unique_key (t : Table) (x r : Row) :
  NoDup (map username t) -> In x t -> In r t ->
  username x = username r -> x = r.
Proof.
  induction t as [|y t IH]; cbn; intros Hnodup Hx Hr Hkey; [contradiction|].
  apply NoDup_cons_iff in Hnodup as [Hfresh Hnodup].
  destruct Hx as [Hx|Hx], Hr as [Hr|Hr].
  - congruence.
  - subst y. exfalso. apply Hfresh. rewrite Hkey. apply in_map, Hr.
  - subst y. exfalso. apply Hfresh. rewrite <- Hkey. apply in_map, Hx.
  - apply IH; assumption.
Qed.

Lemma QueryOne_faults (q : Select) (w : World) :
  faults (snd (QueryOne q w)) = tl (faults w).
Proof.
  unfold QueryOne, QueryRow, bind, next_fault, get_table, ret.
  cbn [faults]. destruct (hd false (faults w)); cbn; [reflexivity|].
  destruct (run_select q (puppet_table w)); reflexivity.
Qed.

(** X11. Loading a puppet with [Get] and saving it unchanged with [Update]
    leaves the table as it was, provided that the key is unique in the table
    and the row is canonical: no listed column NULL, the stored avatar URL
    the string of an empty or well-formed content URI, the name quality an
    [int8] and the last sync not negative. *)
Theorem Get_then_Update_keeps_table (jid : types.JID) (w : World)
        (got : Puppet) :
  faults w = [] ->
  NoDup (map username (puppet_table w)) ->
  (forall r, In r (puppet_table w) -> username r = types.User jid ->
             canonical_row r) ->
  fst (Get jid w) = (Some got, None) ->
  fst (Update got (snd (Get jid w))) = None
  /\ puppet_table (snd (Update got (snd (Get jid w)))) = puppet_table w.
Proof.
  intros Hquiet Hnodup Hcanon Hget. unfold Get in *.
  destruct (QueryOne_keeps_table (getPuppetByJIDQuery (types.User jid)) w)
    as [Htable _].
  pose proof (QueryOne_faults (getPuppetByJIDQuery (types.User jid)) w)
    as Hfaults.
  apply QueryOne_scanned in Hget as (r & Hin & Hgot). subst got.
  cbn [run_select] in Hin. apply filter_In in Hin as [Hin Hkey].
  apply String.eqb_eq in Hkey.
  rewrite Update_on_quiet_driver by (rewrite Hfaults, Hquiet; reflexivity).
  cbn [fst snd puppet_table]. split; [reflexivity|].
  rewrite Htable. rewrite <- (map_id (puppet_table w)) at 2.
  apply map_ext_in. intros x Hx.
  destruct (String.eqb_spec (username x) (username r)) as [Hsame|Hother].
  - rewrite (unique_key _ x r Hnodup Hx Hin Hsame).
    apply load_save_row, Hcanon; assumption.
  - apply update_row_other. exact Hother.
Qed.

Lemma Get_then_Update_keeps_table_witness :
  let contact :=
    {| JID := types.NewJID "491700000" types.DefaultUserServer;
       Avatar := "a1b2";
       AvatarURL := {| id.Homeserver := "example.org"; id.FileID := "QmX" |};
       AvatarSet := true; Displayname := "Ada"; NameQuality := 50;
       NameSet := true; ContactInfoSet := false;
       LastSync := time.Unix 1700000000 0; CustomMXID := "";
       AccessToken := ""; NextBatch := ""; EnablePresence := true;
       EnableReceipts := true; FirstActivityTs := 0; LastActivityTs := 0 |} in
  let w := quiet_world [with_activity (Some 5) (Some 9)
                          (row_of_vars (sqlVariables contact));
                        activity_row "491711111" None None] 0 in
  let got := set_FirstActivityTs 5 (set_LastActivityTs 9
                                      (roundtrip_image contact)) in
  fst (Get (JID contact) w) = (Some got, None)
  /\ puppet_table (snd (Update got (snd (Get (JID contact) w))))
     = puppet_table w.
Proof.
  intros contact w got. split; [vm_compute; reflexivity|].
  apply (Get_then_Update_keeps_table (JID contact) w got).
  - reflexivity.
  - cbn. repeat constructor; cbn; intuition discriminate.
  - intros r [Hr|[Hr|[]]] Hkey; subst r; [|discriminate Hkey].
    unfold canonical_row. cbn.
    repeat split; try discriminate.
    + exists {| id.Homeserver := "example.org"; id.FileID := "QmX" |}.
      split; [left; split; reflexivity | reflexivity].
    + exists 50. split; [reflexivity | unfold Int.is_int8; lia].
    + exists 1700000000. split; [reflexivity | lia].
  - vm_compute. reflexivity.
Defined.

(** ** Further properties of the recomputation *)

Lemma count_after_success (limits : main.Limits) (pa : main.PuppetActivity)
      (w : World) :
  hd false (faults w) = false ->
  count_after limits pa w = recomputed_count limits w.
Proof.
  intros Hok. unfold count_after.
  rewrite (UpdateActivePuppetCount_read_success limits pa w Hok).
  destruct (main.BlockOnLimitReached limits); reflexivity.
Qed.

Lemma UpdateActivePuppetCount_reads_only
      (limits : main.Limits) (pa : main.PuppetActivity) (w : World) :
  puppet_table (snd (main.UpdateActivePuppetCount limits pa w))
  = puppet_table w
  /\ faults (snd (main.UpdateActivePuppetCount limits pa w)) = tl (faults w).
Proof.
  destruct (hd false (faults w)) eqn:Hdriver.
  - rewrite (UpdateActivePuppetCount_read_failure limits pa w Hdriver).
    split; reflexivity.
  - unfold main.UpdateActivePuppetCount, main.Query_activity.
    unfold bind, Log, next_fault, get_table, ret.
    cbn [faults puppet_table clock ticks journal].
    rewrite Hdriver. rewrite scan_loop_pure.
    cbn [faults puppet_table clock ticks journal].
    destruct (main.BlockOnLimitReached limits); split; reflexivity.
Qed.

Lemma activity_rows_length (t : Table) :
  (List.length (main.activity_rows t) <= List.length t)%nat.
Proof.
  induction t as [|r t IH]; [cbn; lia|].
  unfold main.activity_rows in *. cbn [flat_map].
  rewrite length_app. destruct (first_activity_ts r); cbn [List.length]; lia.
Qed.

Lemma scan_pure_bounds (limits : main.Limits) (clk : nat -> Z)
      (rows : list (Z * option Z)) :
  forall (k : nat) (v : main.ScanVars),
    0 <= main.activePuppetCount v ->
    main.activePuppetCount v + Z.of_nat (List.length rows) < 2 ^ 64 ->
    main.activePuppetCount v
    <= main.activePuppetCount (scan_pure limits clk k rows v)
    <= main.activePuppetCount v + Z.of_nat (List.length rows).
Proof.
  induction rows as [|row rest IH]; intros k v Hpos Hfit.
  - cbn. lia.
  - cbn [List.length] in Hfit. rewrite Nat2Z.inj_succ in Hfit.
    cbn [scan_pure List.length]. rewrite Nat2Z.inj_succ.
    destruct (main.counts_as_active limits (clk k) (main.rows_Scan row v)).
    + specialize (IH (S k)
                     {| main.firstActivityTs :=
                          main.firstActivityTs (main.rows_Scan row v);
                        main.lastActivityTs :=
                          main.lastActivityTs (main.rows_Scan row v);
                        main.activePuppetCount :=
                          Int.incrU (main.activePuppetCount
                                       (main.rows_Scan row v)) |}).
      cbn [main.activePuppetCount main.rows_Scan] in IH.
      rewrite (incrU_small (main.activePuppetCount v)) in IH by lia.
      cbn [main.rows_Scan main.activePuppetCount].
      rewrite (incrU_small (main.activePuppetCount v)) by lia.
      specialize (IH ltac:(lia) ltac:(lia)). lia.
    + specialize (IH (S k) (main.rows_Scan row v)).
      cbn [main.activePuppetCount main.rows_Scan] in IH.
      specialize (IH ltac:(lia) ltac:(lia)). lia.
Qed.

(** X12. The recomputation only reads: whatever happens, the table after the
    run is the table before it, and exactly one call went to the driver. When
    the read succeeds (and the table has fewer than 2^64 rows) the count it
    stores lies between 0 and the number of puppets that have a first
    activity. *)
Theorem UpdateActivePuppetCount_reads_and_bounds
        (limits : main.Limits) (pa : main.PuppetActivity) (w : World) :
  puppet_table (snd (main.UpdateActivePuppetCount limits pa w))
  = puppet_table w
  /\ faults (snd (main.UpdateActivePuppetCount limits pa w)) = tl (faults w)
  /\ (hd false (faults w) = false ->
      Z.of_nat (List.length (puppet_table w)) < 2 ^ 64 ->
      0 <= count_after limits pa w
        <= Z.of_nat (List.length (main.activity_rows (puppet_table w)))
      /\ (List.length (main.activity_rows (puppet_table w))
          <= List.length (puppet_table w))%nat).
Proof.
  destruct (UpdateActivePuppetCount_reads_only limits pa w) as [Ht Hf].
  split; [exact Ht|]. split; [exact Hf|].
  intros Hok Hfit.
  pose proof (activity_rows_length (puppet_table w)) as Hlen.
  split; [|exact Hlen].
  rewrite (count_after_success limits pa w Hok). unfold recomputed_count.
  pose proof (scan_pure_bounds limits (clock w)
                (main.activity_rows (puppet_table w)) (ticks w) scan_start)
    as Hbounds.
  cbn [scan_start main.activePuppetCount] in Hbounds.
  apply Hbounds; lia.
Qed.

Lemma UpdateActivePuppetCount_reads_and_bounds_witness :
  let limits := {| main.MaxPuppetLimit := 10; main.MinPuppetActiveDays := 1;
                   main.PuppetInactivityDays := 30;
                   main.BlockOnLimitReached := true |} in
  let pa := {| main.currentUserCount := 0; main.isBlocked := false |} in
  let w := quiet_world [activity_row "a" (Some 0) (Some 0);
                        activity_row "b" (Some 9000000) (Some 9900000);
                        activity_row "d" None None] 10000000 in
  0 <= count_after limits pa w <= 2.
Proof.
  intros limits pa w.
  destruct (UpdateActivePuppetCount_reads_and_bounds limits pa w)
    as (_ & _ & Hbounds).
  destruct Hbounds as [Hcount _]; [reflexivity | cbn; lia |].
  exact Hcount.
Defined.

Lemma counts_as_active_no_room (limits : main.Limits) (now : Z)
      (v : main.ScanVars) :
  main.maxActivityTime limits <= main.minActivityTime limits + 1 ->
  main.counts_as_active limits now v = false.
Proof.
  intros Hroom. unfold main.counts_as_active.
  set (s := Int.sub64 (main.lastActivityTs v) (main.firstActivityTs v)).
  destruct (Z.gtb_spec s (main.minActivityTime limits)) as [Hgt|Hle].
  - destruct (Z.ltb_spec s (main.maxActivityTime limits)) as [Hlt|Hge];
      [lia|]. apply andb_false_r.
  - rewrite andb_false_r. reflexivity.
Qed.

Lemma scan_pure_never_counting (limits : main.Limits) (clk : nat -> Z)
      (rows : list (Z * option Z)) :
  (forall now v, main.counts_as_active limits now v = false) ->
  forall (k : nat) (v : main.ScanVars),
    main.activePuppetCount (scan_pure limits clk k rows v)
    = main.activePuppetCount v.
Proof.
  intros Hnever. induction rows as [|row rest IH]; intros k v;
    [reflexivity|].
  cbn [scan_pure]. rewrite Hnever, IH. reflexivity.
Qed.

(** X13. When the window leaves no room above the minimum active duration
    (the window in seconds is at most the minimum plus one) no puppet is
    counted: every successful run stores the count 0, whatever the table and
    the clock, and under the blocking policy the bridge is blocked only if
    the limit is below 0. This is the case whenever the configured inactivity
    days do not exceed the configured minimum active days, in particular for
    a configuration that leaves both at 0. *)
Theorem no_room_no_active_puppets (limits : main.Limits) :
  (main.maxActivityTime limits <= main.minActivityTime limits + 1 ->
   forall (pa : main.PuppetActivity) (w : World),
     hd false (faults w) = false ->
     count_after limits pa w = 0
     /\ (main.BlockOnLimitReached limits = true ->
         main.isBlocked (fst (fst (main.UpdateActivePuppetCount limits pa w)))
         = (main.MaxPuppetLimit limits <? 0)))
  /\ (0 <= main.PuppetInactivityDays limits
        <= main.MinPuppetActiveDays limits ->
      main.ONE_DAY_S * main.MinPuppetActiveDays limits < 2 ^ 63 ->
      main.maxActivityTime limits <= main.minActivityTime limits + 1).
Proof.
  split.
  - intros Hroom pa w Hok.
    assert (Hzero : recomputed_count limits w = 0).
    { unfold recomputed_count.
      rewrite scan_pure_never_counting; [reflexivity|].
      intros now v. apply counts_as_active_no_room, Hroom. }
    split.
    + rewrite (count_after_success limits pa w Hok). exact Hzero.
    + intros Hblock.
      rewrite (UpdateActivePuppetCount_read_success limits pa w Hok), Hblock.
      cbn [fst main.isBlocked]. rewrite Hzero. reflexivity.
  - intros Hdays Hfit. unfold main.maxActivityTime, main.minActivityTime,
      Int.wrapU, main.ONE_DAY_S in *.
    assert (Hday : 24 * 60 * 60 = 86400) by reflexivity.
    rewrite Hday in *.
    rewrite (Z.mod_small (86400 * main.PuppetInactivityDays limits))
      by lia.
    rewrite (Z.mod_small (86400 * main.MinPuppetActiveDays limits))
      by lia.
    rewrite !wrap64_small by (unfold Int.is_int64; lia). lia.
Qed.

Lemma no_room_no_active_puppets_witness :
  let limits := {| main.MaxPuppetLimit := 0; main.MinPuppetActiveDays := 0;
                   main.PuppetInactivityDays := 0;
                   main.BlockOnLimitReached := true |} in
  let pa := {| main.currentUserCount := 0; main.isBlocked := false |} in
  let w := quiet_world [activity_row "b" (Some 9000000) (Some 9900000)]
                       10000000 in
  count_after limits pa w = 0
  /\ main.isBlocked (fst (fst (main.UpdateActivePuppetCount limits pa w)))
     = false.
Proof.
  intros limits pa w.
  destruct (no_room_no_active_puppets limits) as [Hnone Hdays].
  destruct (Hnone (Hdays ltac:(cbn; lia) ltac:(cbn; lia)) pa w) as [Hc Hb];
    [reflexivity|].
  split; [exact Hc|]. rewrite Hb by reflexivity. reflexivity.
Defined.

Lemma scan_pure_fill (limits : main.Limits) (clk : nat -> Z) (t : Table) :
  forall (k : nat) (v : main.ScanVars),
    scan_pure limits clk k (main.activity_rows t) v
    = scan_pure limits clk k
        (main.activity_rows (fill_last_activity (main.lastActivityTs v) t)) v.
Proof.
  induction t as [|r t IH]; intros k v; [reflexivity|].
  unfold main.activity_rows in *. cbn [flat_map fill_last_activity].
  destruct (first_activity_ts r) as [first|] eqn:Hfirst.
  - destruct (last_activity_ts r) as [last|] eqn:Hlast.
    + cbn [flat_map]. rewrite Hfirst, Hlast. cbn [app scan_pure].
      set (v' := if main.counts_as_active _ _ _ then _ else _).
      assert (Hv' : main.lastActivityTs v' = last).
      { subst v'. destruct (main.counts_as_active _ _ _); reflexivity. }
      rewrite (IH (S k) v'), Hv'. reflexivity.
    + cbn [flat_map with_activity first_activity_ts last_activity_ts].
      cbn [app scan_pure].
      assert (Hscan : main.rows_Scan (first, None) v
                      = main.rows_Scan (first, Some (main.lastActivityTs v)) v)
        by reflexivity.
      rewrite <- Hscan.
      set (v' := if main.counts_as_active _ _ _ then _ else _).
      assert (Hv' : main.lastActivityTs v' = main.lastActivityTs v).
      { subst v'. destruct (main.counts_as_active _ _ _); reflexivity. }
      rewrite (IH (S k) v'), Hv'. reflexivity.
  - cbn [flat_map]. rewrite Hfirst. cbn [app]. apply IH.
Qed.

(** X14. The recomputation cannot tell a NULL last-activity column from a
    repetition of the last activity of the scanned row before it (0 for the
    first scanned row): the loop variables live outside the loop and the
    error of the row scan is dropped. A run over a table gives the same
    snapshot as a run over the table with such columns filled in that way. *)
Theorem null_last_activity_is_inherited
        (limits : main.Limits) (pa : main.PuppetActivity) (w : World) :
  fst (main.UpdateActivePuppetCount limits pa w)
  = fst (main.UpdateActivePuppetCount limits pa
           (with_table (fill_last_activity 0 (puppet_table w)) w)).
Proof.
  destruct (hd false (faults w)) eqn:Hdriver.
  - rewrite !UpdateActivePuppetCount_read_failure by exact Hdriver.
    reflexivity.
  - rewrite !UpdateActivePuppetCount_read_success by exact Hdriver.
    assert (Hsame : recomputed_count limits w
                    = recomputed_count limits
                        (with_table (fill_last_activity 0 (puppet_table w)) w)).
    { unfold recomputed_count. cbn [with_table clock ticks puppet_table].
      rewrite (scan_pure_fill limits (clock w) (puppet_table w) (ticks w)
                 scan_start).
      reflexivity. }
    rewrite <- Hsame. reflexivity.
Qed.

Lemma filter_length_permutation {A : Type} (P : A -> bool) (l l' : list A) :
  Permutation l l' -> List.length (filter P l) = List.length (filter P l').
Proof.
  induction 1 as [|x l l' _ IH|x y l|l l' l'' _ IH1 _ IH2]; cbn.
  - reflexivity.
  - destruct (P x); cbn; rewrite IH; reflexivity.
  - destruct (P x), (P y); reflexivity.
  - rewrite IH1. exact IH2.
Qed.

Lemma recomputed_count_rule (limits : main.Limits) (w : World) (now : Z) :
  (forall k, clock w k = now) ->
  Forall (row_readable now) (puppet_table w) ->
  Z.of_nat (List.length (puppet_table w)) < 2 ^ 64 ->
  recomputed_count limits w
  = spec_active_count (main.minActivityTime limits)
                      (main.maxActivityTime limits) now (puppet_table w).
Proof.
  intros Hclk Hrows Hfit. unfold recomputed_count.
  rewrite (scan_pure_counts limits (clock w) now (puppet_table w) Hclk Hrows)
    by (cbn; lia).
  reflexivity.
Qed.

(** X15. The statement that reads the activity columns has no ORDER BY. On
    tables whose scanned rows all carry a last activity (and whose
    differences fit [int64]) the order does not matter: two runs at the same
    clock reading over tables that hold the same rows in different orders
    give the same snapshot. *)
Theorem count_independent_of_row_order
        (limits : main.Limits) (pa : main.PuppetActivity) (w w' : World)
        (now : Z) :
  hd false (faults w) = false ->
  hd false (faults w') = false ->
  (forall k, clock w k = now) ->
  (forall k, clock w' k = now) ->
  Forall (row_readable now) (puppet_table w) ->
  Z.of_nat (List.length (puppet_table w)) < 2 ^ 64 ->
  Permutation (puppet_table w) (puppet_table w') ->
  fst (main.UpdateActivePuppetCount limits pa w)
  = fst (main.UpdateActivePuppetCount limits pa w').
Proof.
  intros Hok Hok' Hclk Hclk' Hrows Hfit Hperm.
  rewrite (UpdateActivePuppetCount_read_success limits pa w Hok).
  rewrite (UpdateActivePuppetCount_read_success limits pa w' Hok').
  assert (Hrows' : Forall (row_readable now) (puppet_table w')).
  { apply Forall_forall. intros r Hin.
    apply (proj1 (Forall_forall _ _) Hrows).
    apply (Permutation_in r (Permutation_sym Hperm) Hin). }
  assert (Hfit' : Z.of_nat (List.length (puppet_table w')) < 2 ^ 64).
  { rewrite <- (Permutation_length Hperm). exact Hfit. }
  rewrite (recomputed_count_rule limits w now Hclk Hrows Hfit).
  rewrite (recomputed_count_rule limits w' now Hclk' Hrows' Hfit').
  unfold spec_active_count.
  rewrite (filter_length_permutation _ _ _ Hperm). reflexivity.
Qed.

Lemma count_independent_of_row_order_witness :
  let limits := {| main.MaxPuppetLimit := 10; main.MinPuppetActiveDays := 1;
                   main.PuppetInactivityDays := 30;
                   main.BlockOnLimitReached := true |} in
  let pa := {| main.currentUserCount := 0; main.isBlocked := false |} in
  let a := activity_row "a" (Some 0) (Some 0) in
  let b := activity_row "b" (Some 9000000) (Some 9900000) in
  fst (main.UpdateActivePuppetCount limits pa (quiet_world [a; b] 10000000))
  = fst (main.UpdateActivePuppetCount limits pa (quiet_world [b; a] 10000000)).
Proof.
  intros limits pa a b.
  apply (count_independent_of_row_order limits pa _ _ 10000000).
  - reflexivity.
  - reflexivity.
  - intros k. reflexivity.
  - intros k. reflexivity.
  - repeat constructor; cbn; unfold Int.is_int64; lia.
  - cbn. lia.
  - apply perm_swap.
Defined.

(** Without a last activity in every scanned row the order does matter: the
    same two rows give the count 2 in one order and 1 in the other. *)
Lemma count_depends_on_order_with_null :
  let limits := {| main.MaxPuppetLimit := 10; main.MinPuppetActiveDays := 1;
                   main.PuppetInactivityDays := 30;
                   main.BlockOnLimitReached := true |} in
  let pa := {| main.currentUserCount := 0; main.isBlocked := false |} in
  let b := activity_row "b" (Some 9000000) (Some 9900000) in
  let n := activity_row "n" (Some 9000000) None in
  count_after limits pa (quiet_world [b; n] 10000000) = 2
  /\ count_after limits pa (quiet_world [n; b] 10000000) = 1.
Proof. split; reflexivity. Qed.

(** ** From the first activity to the count *)

Lemma scan_pure_app (limits : main.Limits) (clk : nat -> Z)
      (a b : list (Z * option Z)) :
  forall (k : nat) (v : main.ScanVars),
    scan_pure limits clk k (a ++ b) v
    = scan_pure limits clk (k + List.length a) b (scan_pure limits clk k a v).
Proof.
  induction a as [|row a IH]; intros k v.
  - cbn. rewrite Nat.add_0_r. reflexivity.
  - cbn [app scan_pure List.length]. rewrite IH, Nat.add_succ_r. reflexivity.
Qed.

Lemma activity_rows_app (t t' : Table) :
  main.activity_rows (t ++ t')%list
  = (main.activity_rows t ++ main.activity_rows t')%list.
Proof. unfold main.activity_rows. apply flat_map_app. Qed.

Lemma UpdateActivityTs_clock (puppet : Puppet) (ts : Z) (w : World) :
  clock (snd (UpdateActivityTs puppet ts w)) = clock w
  /\ ticks (snd (UpdateActivityTs puppet ts w)) = ticks w.
Proof.
  unfold UpdateActivityTs.
  destruct (LastActivityTs puppet >? ts); [split; reflexivity|].
  unfold bind, Exec, bind, next_fault, Log, get_table, put_table, ret.
  cbn [FirstActivityTs set_LastActivityTs set_FirstActivityTs faults journal
       puppet_table run_stmt tl LastActivityTs JID clock ticks].
  destruct (faults w) as [|f1 [|f2 fs]]; cbn [hd tl];
    try destruct f1; try destruct f2;
    destruct (FirstActivityTs puppet =? 0); split; reflexivity.
Qed.

(** The table after a new standard user is inserted and receives its first
    activity update, on a working driver. *)
Lemma first_activity_table (puppet : Puppet) (ts : Z) (w : World) :
  types.Server (JID puppet) = types.DefaultUserServer ->
  faults w = [] ->
  has_user (types.User (JID puppet)) (puppet_table w) = false ->
  let w2 := snd (UpdateActivityTs puppet ts (snd (Insert puppet w))) in
  let row0 := row_of_vars (sqlVariables puppet) in
  faults w2 = [] /\ clock w2 = clock w /\ ticks w2 = ticks w
  /\ puppet_table w2
     = (puppet_table w
        ++ [if LastActivityTs puppet >? ts then row0
            else if FirstActivityTs puppet =? 0
                 then with_activity (Some ts) (Some ts) row0
                 else with_activity None (Some ts) row0])%list.
Proof.
  intros Huser Hquiet Hnew w2 row0.
  assert (Hinsert : snd (Insert puppet w)
                    = with_table ((puppet_table w ++ [row0])%list) w).
  { rewrite (Insert_accepted puppet w Huser).
    rewrite (Exec_insert_new (sqlVariables puppet) w) by
        (rewrite ?Hquiet; first [reflexivity | exact Hnew]).
    unfold with_table. cbn [snd]. rewrite Hquiet. reflexivity. }
  subst w2. rewrite Hinsert.
  set (w1 := with_table _ w).
  destruct (UpdateActivityTs_clock puppet ts w1) as [Hclock Hticks].
  split; [apply UpdateActivityTs_faults_nil; exact Hquiet|].
  split; [exact Hclock|]. split; [exact Hticks|].
  destruct (Z.gtb_spec (LastActivityTs puppet) ts) as [Hgt|Hle].
  - rewrite UpdateActivityTs_older_untouched by lia. reflexivity.
  - rewrite (UpdateActivityTs_table puppet ts w1 Hle). cbn zeta.
    subst w1. cbn [with_table faults puppet_table]. rewrite Hquiet.
    cbn [hd tl].
    assert (Hown : String.eqb (username row0) (types.User (JID puppet)) = true)
      by apply String.eqb_refl.
    assert (Hlast : map (set_last_activity_ts ts (types.User (JID puppet)))
                        (puppet_table w ++ [row0])%list
                    = (puppet_table w
                       ++ [with_activity None (Some ts) row0])%list).
    { rewrite map_app.
      rewrite (map_absent_user _ _ _ (set_last_activity_ts_other ts _) Hnew).
      cbn [map]. unfold set_last_activity_ts. rewrite Hown. reflexivity. }
    rewrite Hlast.
    destruct (FirstActivityTs puppet =? 0); [|reflexivity].
    rewrite map_app.
    rewrite (map_absent_user _ _ _ (set_first_activity_ts_other ts _) Hnew).
    cbn [map]. unfold set_first_activity_ts.
    cbn [with_activity first_activity_ts username]. rewrite Hown.
    reflexivity.
Qed.

(** The count over a table with one more row at its end. *)
Lemma recomputed_count_appended (limits : main.Limits) (w2 w : World)
      (r : Row) :
  clock w2 = clock w -> ticks w2 = ticks w ->
  puppet_table w2 = (puppet_table w ++ [r])%list ->
  recomputed_count limits w2
  = main.activePuppetCount
      (scan_pure limits (clock w)
                 (ticks w + List.length (main.activity_rows (puppet_table w)))
                 (main.activity_rows [r])
                 (scan_pure limits (clock w) (ticks w)
                            (main.activity_rows (puppet_table w)) scan_start)).
Proof.
  intros Hclock Hticks Htable. unfold recomputed_count.
  rewrite Hclock, Hticks, Htable, activity_rows_app, scan_pure_app.
  reflexivity.
Qed.

(** X16. One activity is never enough to be counted. When the minimum active
    duration is not negative, a new standard user that is inserted and
    receives one activity update (on a working driver) leaves the count of
    the next recomputation where it was: its first and last activity
    coincide. *)
Theorem single_activity_not_counted
        (limits : main.Limits) (pa : main.PuppetActivity)
        (puppet : Puppet) (ts : Z) (w : World) :
  0 <= main.minActivityTime limits ->
  types.Server (JID puppet) = types.DefaultUserServer ->
  faults w = [] ->
  has_user (types.User (JID puppet)) (puppet_table w) = false ->
  count_after limits pa
              (snd (UpdateActivityTs puppet ts (snd (Insert puppet w))))
  = count_after limits pa w.
Proof.
  intros Hmin Huser Hquiet Hnew.
  destruct (first_activity_table puppet ts w Huser Hquiet Hnew)
    as (Hfaults & Hclock & Hticks & Htable).
  rewrite !count_after_success by (rewrite ?Hfaults, ?Hquiet; reflexivity).
  rewrite (recomputed_count_appended limits _ w _ Hclock Hticks Htable).
  unfold recomputed_count.
  destruct (LastActivityTs puppet >? ts); [reflexivity|].
  destruct (FirstActivityTs puppet =? 0); [|reflexivity].
  cbn [main.activity_rows flat_map with_activity first_activity_ts
       last_activity_ts app scan_pure].
  unfold main.counts_as_active at 1.
  cbn [main.rows_Scan main.firstActivityTs main.lastActivityTs fst snd].
  assert (Hspan : Int.sub64 ts ts = 0).
  { unfold Int.sub64. rewrite Z.sub_diag. reflexivity. }
  rewrite Hspan.
  destruct (Z.gtb_spec 0 (main.minActivityTime limits)) as [Hneg|_]; [lia|].
  rewrite andb_false_r. reflexivity.
Qed.

Lemma single_activity_not_counted_witness :
  let limits := {| main.MaxPuppetLimit := 10; main.MinPuppetActiveDays := 1;
                   main.PuppetInactivityDays := 30;
                   main.BlockOnLimitReached := true |} in
  let pa := {| main.currentUserCount := 0; main.isBlocked := false |} in
  let contact :=
    {| JID := types.NewJID "491700000" types.DefaultUserServer; Avatar := "";
       AvatarURL := id.emptyContentURI; AvatarSet := false;
       Displayname := "Ada"; NameQuality := 50; NameSet := true;
       ContactInfoSet := false; LastSync := time.zero; CustomMXID := "";
       AccessToken := ""; NextBatch := ""; EnablePresence := true;
       EnableReceipts := true; FirstActivityTs := 0; LastActivityTs := 0 |} in
  let w := quiet_world [activity_row "b" (Some 9000000) (Some 9900000)]
                       10000000 in
  count_after limits pa
              (snd (UpdateActivityTs contact 9999000 (snd (Insert contact w))))
  = 1.
Proof.
  intros limits pa contact w.
  rewrite (single_activity_not_counted limits pa contact 9999000 w).
  - reflexivity.
  - vm_compute. discriminate.
  - reflexivity.
  - reflexivity.
  - reflexivity.
Defined.

Lemma activity_step_JID (puppet : Puppet) (ts : Z) :
  JID (activity_step puppet ts) = JID puppet.
Proof.
  unfold activity_step.
  destruct (LastActivityTs puppet >? ts);
    [|destruct (FirstActivityTs puppet =? 0)]; reflexivity.
Qed.

(** The table after a new standard user is inserted and receives two
    activity updates, the second not older than the first. *)
Lemma second_activity_table (puppet : Puppet) (ts ts2 : Z) (w : World) :
  types.Server (JID puppet) = types.DefaultUserServer ->
  faults w = [] ->
  has_user (types.User (JID puppet)) (puppet_table w) = false ->
  FirstActivityTs puppet = 0 ->
  LastActivityTs puppet <= ts -> ts <= ts2 ->
  let w1 := snd (Insert puppet w) in
  let w3 := snd (UpdateActivityTs (fst (UpdateActivityTs puppet ts w1)) ts2
                                  (snd (UpdateActivityTs puppet ts w1))) in
  faults w3 = [] /\ clock w3 = clock w /\ ticks w3 = ticks w
  /\ puppet_table w3
     = (puppet_table w
        ++ [with_activity (Some ts) (Some ts2)
                          (row_of_vars (sqlVariables puppet))])%list.
Proof.
  intros Huser Hquiet Hnew Hunset Hle Hle2 w1 w3.
  destruct (first_activity_table puppet ts w Huser Hquiet Hnew)
    as (Hfaults & Hclock & Hticks & Htable).
  fold w1 in Hfaults, Hclock, Hticks, Htable.
  destruct (Z.gtb_spec (LastActivityTs puppet) ts) as [Hgt|_]; [lia|].
  rewrite Hunset in Htable. cbn [Z.eqb] in Htable.
  subst w3. rewrite UpdateActivityTs_in_memory.
  set (w2 := snd (UpdateActivityTs puppet ts w1)) in *.
  set (p1 := activity_step puppet ts).
  destruct (activity_step_newer puppet ts Hle) as [Hl1 Hf1].
  fold p1 in Hl1, Hf1. rewrite Hunset in Hf1. cbn [Z.eqb] in Hf1.
  assert (Hjid : JID p1 = JID puppet) by apply activity_step_JID.
  destruct (UpdateActivityTs_clock p1 ts2 w2) as [Hclock3 Hticks3].
  split; [apply UpdateActivityTs_faults_nil; exact Hfaults|].
  split; [rewrite Hclock3; exact Hclock|].
  split; [rewrite Hticks3; exact Hticks|].
  rewrite (UpdateActivityTs_table p1 ts2 w2) by (rewrite Hl1; exact Hle2).
  cbn zeta. rewrite Hfaults, Htable, Hjid. cbn [hd tl].
  set (row0 := row_of_vars (sqlVariables puppet)).
  assert (Hown : forall first last,
             String.eqb (username (with_activity first last row0))
                        (types.User (JID puppet)) = true)
    by (intros; apply String.eqb_refl).
  assert (Hlast : map (set_last_activity_ts ts2 (types.User (JID puppet)))
                      (puppet_table w
                       ++ [with_activity (Some ts) (Some ts) row0])%list
                  = (puppet_table w
                     ++ [with_activity (Some ts) (Some ts2) row0])%list).
  { rewrite map_app.
    rewrite (map_absent_user _ _ _ (set_last_activity_ts_other ts2 _) Hnew).
    cbn [map]. unfold set_last_activity_ts. rewrite Hown. reflexivity. }
  rewrite Hlast.
  destruct (FirstActivityTs p1 =? 0); [|reflexivity].
  rewrite map_app.
  rewrite (map_absent_user _ _ _ (set_first_activity_ts_other ts2 _) Hnew).
  reflexivity.
Qed.

(** X17. Two activities far enough apart are counted. A new standard user
    without activity that is inserted and receives two activity updates [ts]
    and [ts2] (on a working driver) raises the count of the next
    recomputation by one, when the span [ts2 - ts] lies strictly between the
    minimum active duration and the window and the last activity is no
    further back than the window. *)
Theorem two_activities_counted
        (limits : main.Limits) (pa : main.PuppetActivity)
        (puppet : Puppet) (ts ts2 now : Z) (w : World) :
  0 <= main.minActivityTime limits ->
  types.Server (JID puppet) = types.DefaultUserServer ->
  faults w = [] ->
  (forall k, clock w k = now) ->
  has_user (types.User (JID puppet)) (puppet_table w) = false ->
  Z.of_nat (List.length (puppet_table w)) + 1 < 2 ^ 64 ->
  FirstActivityTs puppet = 0 ->
  LastActivityTs puppet <= ts ->
  main.minActivityTime limits < ts2 - ts < main.maxActivityTime limits ->
  Int.is_int64 (now - ts2) ->
  now - ts2 <= main.maxActivityTime limits ->
  let w1 := snd (Insert puppet w) in
  let w3 := snd (UpdateActivityTs (fst (UpdateActivityTs puppet ts w1)) ts2
                                  (snd (UpdateActivityTs puppet ts w1))) in
  count_after limits pa w3 = count_after limits pa w + 1.
Proof.
  intros Hmin Huser Hquiet Hclk Hnew Hfit Hunset Hle Hspan Hage Hrecent w1 w3.
  destruct (second_activity_table puppet ts ts2 w Huser Hquiet Hnew Hunset Hle)
    as (Hfaults & Hclock & Hticks & Htable); [lia|].
  fold w1 in Hfaults, Hclock, Hticks, Htable.
  fold w3 in Hfaults, Hclock, Hticks, Htable.
  rewrite !count_after_success by (rewrite ?Hfaults, ?Hquiet; reflexivity).
  rewrite (recomputed_count_appended limits w3 w _ Hclock Hticks Htable).
  unfold recomputed_count.
  pose proof (scan_pure_bounds limits (clock w)
                (main.activity_rows (puppet_table w)) (ticks w) scan_start)
    as Hbounds.
  pose proof (activity_rows_length (puppet_table w)) as Hlen.
  cbn [scan_start main.activePuppetCount] in Hbounds.
  specialize (Hbounds ltac:(lia) ltac:(lia)).
  set (v := scan_pure limits (clock w) (ticks w)
                      (main.activity_rows (puppet_table w)) scan_start) in *.
  cbn [main.activity_rows flat_map with_activity first_activity_ts
       last_activity_ts app scan_pure].
  unfold main.counts_as_active.
  cbn [main.rows_Scan main.firstActivityTs main.lastActivityTs fst snd
       main.activePuppetCount].
  rewrite Hclk. unfold Int.sub64.
  pose proof (maxActivityTime_range limits) as Hmax.
  unfold Int.is_int64 in Hmax.
  rewrite (wrap64_small (ts2 - ts)) by (unfold Int.is_int64; lia).
  rewrite (wrap64_small (now - ts2)) by exact Hage.
  destruct (Z.gtb_spec (now - ts2) (main.maxActivityTime limits)); [lia|].
  destruct (Z.gtb_spec (ts2 - ts) (main.minActivityTime limits)); [|lia].
  destruct (Z.ltb_spec (ts2 - ts) (main.maxActivityTime limits)); [|lia].
  cbn [negb andb main.activePuppetCount].
  apply incrU_small; lia.
Qed.

Lemma two_activities_counted_witness :
  let limits := {| main.MaxPuppetLimit := 10; main.MinPuppetActiveDays := 1;
                   main.PuppetInactivityDays := 30;
                   main.BlockOnLimitReached := true |} in
  let pa := {| main.currentUserCount := 0; main.isBlocked := false |} in
  let contact :=
    {| JID := types.NewJID "491700000" types.DefaultUserServer; Avatar := "";
       AvatarURL := id.emptyContentURI; AvatarSet := false;
       Displayname := "Ada"; NameQuality := 50; NameSet := true;
       ContactInfoSet := false; LastSync := time.zero; CustomMXID := "";
       AccessToken := ""; NextBatch := ""; EnablePresence := true;
       EnableReceipts := true; FirstActivityTs := 0; LastActivityTs := 0 |} in
  let w := quiet_world [activity_row "b" (Some 9000000) (Some 9900000)]
                       10000000 in
  let w1 := snd (Insert contact w) in
  let w3 := snd (UpdateActivityTs (fst (UpdateActivityTs contact 9000000 w1))
                                  9900000
                                  (snd (UpdateActivityTs contact 9000000 w1))) in
  count_after limits pa w3 = 2.
Proof.
  intros limits pa contact w w1 w3. subst w3 w1.
  rewrite (two_activities_counted limits pa contact 9000000 9900000 10000000 w).
  - reflexivity.
  - vm_compute. discriminate.
  - reflexivity.
  - reflexivity.
  - intros k. reflexivity.
  - reflexivity.
  - cbn. lia.
  - reflexivity.
  - cbn. lia.
  - vm_compute. split; reflexivity.
  - unfold Int.is_int64. lia.
  - vm_compute. discriminate.
Defined.

(** ** The stored first activity over sequences of updates *)

Lemma Forall2_keeps_first_trans (t1 t2 : Table) :
  Forall2 keeps_first_activity t1 t2 ->
  forall t3, Forall2 keeps_first_activity t2 t3 ->
             Forall2 keeps_first_activity t1 t3.
Proof.
  induction 1 as [|r1 r2 t1 t2 Hr _ IH]; intros t3 H23;
    inversion H23 as [|r2' r3 t2' t3' Hr' Ht' E1 E2]; subst;
    constructor.
  - apply (keeps_first_activity_trans r1 r2 r3); assumption.
  - apply IH. exact Ht'.
Qed.

(** X18. The first activity of a row is written once. Over any sequence of
    activity updates of a puppet, and whatever the driver does with each
    write, a row that stores a first activity before the sequence stores the
    same one after it, and no row changes its key. *)
Theorem stored_first_activity_written_once (tss : list Z) :
  forall (puppet : Puppet) (w : World),
    Forall2 keeps_first_activity
            (puppet_table w)
            (puppet_table (snd (UpdateActivityTs_seq puppet tss w))).
Proof.
  induction tss as [|ts rest IH]; intros puppet w.
  - cbn. apply Forall2_same_rows.
  - cbn [UpdateActivityTs_seq]. unfold bind.
    pose proof (UpdateActivityTs_keeps_stored_first puppet ts w) as Hstep.
    destruct (UpdateActivityTs puppet ts w) as [puppet' w'].
    cbn [snd] in Hstep.
    apply (Forall2_keeps_first_trans _ _ Hstep). apply IH.
Qed.

(** ** Starting the custom puppets *)

Lemma custom_starts_app (a b : list main.Action) :
  custom_starts (a ++ b) = (custom_starts a ++ custom_starts b)%list.
Proof.
  induction a as [|x a IH]; cbn; [reflexivity|].
  destruct x; cbn; rewrite IH; reflexivity.
Qed.

Lemma custom_starts_connects (users : list main.User) :
  custom_starts (map main.Go_Connect users) = [].
Proof. induction users as [|u users IH]; cbn; [reflexivity | exact IH]. Qed.

Lemma custom_starts_custom (puppets : list Puppet) :
  custom_starts (map main.Go_StartCustomPuppet puppets) = puppets.
Proof.
  induction puppets as [|p puppets IH]; cbn; [|rewrite IH]; reflexivity.
Qed.

Lemma states_sent_app (a b : list main.Action) :
  states_sent (a ++ b) = (states_sent a + states_sent b)%nat.
Proof.
  induction a as [|x a IH]; cbn; [reflexivity|].
  destruct x; cbn; rewrite IH; reflexivity.
Qed.

Lemma states_sent_connects (users : list main.User) :
  states_sent (map main.Go_Connect users) = O.
Proof. induction users as [|u users IH]; cbn; [reflexivity | exact IH]. Qed.

Lemma states_sent_custom (puppets : list Puppet) :
  states_sent (map main.Go_StartCustomPuppet puppets) = O.
Proof. induction puppets as [|p puppets IH]; cbn; [reflexivity | exact IH]. Qed.

(** X19. [StartUsers] launches the start of every custom puppet it is given,
    once each and in order, whatever the users are, and only after the whole
    user pass: everything before the line "Starting custom puppets" launches
    no custom puppet, and everything after it launches nothing else. At most
    one global bridge state is sent, and one is sent when there is no user at
    all. *)
Theorem StartUsers_custom_puppets_after_users
        (users : list main.User) (puppets : list Puppet) :
  custom_starts (main.StartUsers users puppets) = puppets
  /\ (exists before : list main.Action,
         main.StartUsers users puppets
         = (before ++ main.Debugln "Starting custom puppets"
                   :: map main.Go_StartCustomPuppet puppets)%list
         /\ connect_attempts before = users
         /\ custom_starts before = [])
  /\ (states_sent (main.StartUsers users puppets) <= 1)%nat
  /\ (users = [] -> states_sent (main.StartUsers users puppets) = 1%nat).
Proof.
  rewrite StartUsers_actions.
  set (state := if existsb _ users then [] else _).
  assert (Hstate : (states_sent state <= 1)%nat /\ connect_attempts state = []
                   /\ custom_starts state = []).
  { subst state. destruct (existsb _ users); cbn; repeat split; lia. }
  destruct Hstate as (Hone & Hnoconnect & Hnocustom).
  split.
  { rewrite !custom_starts_app, custom_starts_connects, custom_starts_custom.
    rewrite Hnocustom. reflexivity. }
  split.
  { exists ([main.Debugln "Starting users"]
            ++ map main.Go_Connect users ++ state)%list.
    split; [rewrite <- !app_assoc; reflexivity|].
    split.
    - rewrite !connect_attempts_app, connect_attempts_connects, Hnoconnect.
      cbn. apply app_nil_r.
    - rewrite !custom_starts_app, custom_starts_connects, Hnocustom.
      reflexivity. }
  split.
  { rewrite !states_sent_app, states_sent_connects, states_sent_custom.
    cbn. lia. }
  intros Hempty. subst users state.
  rewrite !states_sent_app, states_sent_custom. reflexivity.
Qed.

Lemma StartUsers_custom_puppets_after_users_witness :
  custom_starts (main.StartUsers [] [newPuppet]) = [newPuppet]
  /\ states_sent (main.StartUsers [] [newPuppet]) = 1%nat.
Proof.
  destruct (StartUsers_custom_puppets_after_users [] [newPuppet])
    as (Hcustom & _ & _ & Hempty).
  split; [exact Hcustom | apply Hempty; reflexivity].
Defined.

(** ** The check of the protocol version *)

Lemma version_eqb_eq (a b : wabridge.WAVersionContainer) :
  wabridge.version_eqb a b = true <-> a = b.
Proof.
  destruct a as [[a0 a1] a2], b as [[b0 b1] b2]. cbn.
  rewrite !andb_true_iff, !Z.eqb_eq. split.
  - intros [[H0 H1] H2]. congruence.
  - intros H. injection H as H0 H1 H2. auto.
Qed.

(** The order of versions is total: a version that is neither equal to nor
    less than another is greater. *)
Lemma LessThan_trichotomy (a b : wabridge.WAVersionContainer) :
  wabridge.LessThan b a = true
  <-> wabridge.version_eqb a b = false /\ wabridge.LessThan a b = false.
Proof.
  destruct a as [[a0 a1] a2], b as [[b0 b1] b2]. cbn.
  rewrite <- !not_true_iff_false.
  rewrite !orb_true_iff, !andb_true_iff, !Z.ltb_lt, !Z.eqb_eq. lia.
Qed.

(** X20. The version check never fails: it logs the line that announces it
    and exactly one line with its finding. That line is a warning exactly
    when the check itself failed or the bridge is older than the latest
    version and that version is marked broken or below the hard limit; in
    particular the marks are ignored when the bridge runs the latest version
    or a newer one. The bridge is reported as newer than latest exactly when
    the latest version is less than its own. *)
Theorem CheckWhatsAppUpdate_report
        (current : wabridge.WAVersionContainer)
        (result : wabridge.CheckUpdateResponse + unit) :
  let lines := wabridge.CheckWhatsAppUpdate current result in
  List.length lines = 2%nat
  /\ hd_error lines
     = Some (wabridge.Debugf, "Checking for WhatsApp web update")
  /\ ((exists msg, In (wabridge.Warnf, msg) lines)
      <-> (result = inr tt
           \/ exists resp,
               result = inl resp
               /\ wabridge.LessThan current (wabridge.ParsedVersion resp)
                  = true
               /\ (wabridge.IsBelowHard resp || wabridge.IsBroken resp)
                  = true))
  /\ (forall resp,
         result = inl resp ->
         (In (wabridge.Debugf,
              "Bridge is using newer than latest WhatsApp web protocol") lines
          <-> wabridge.LessThan (wabridge.ParsedVersion resp) current = true)
         /\ (In (wabridge.Debugf,
                 "Bridge is using latest WhatsApp web protocol") lines
             <-> current = wabridge.ParsedVersion resp)).
Proof.
  intros lines. subst lines. unfold wabridge.CheckWhatsAppUpdate.
  destruct result as [resp|[]].
  - pose proof (LessThan_trichotomy current (wabridge.ParsedVersion resp))
      as Htri.
    pose proof (version_eqb_eq current (wabridge.ParsedVersion resp)) as Heq.
    destruct (wabridge.version_eqb current (wabridge.ParsedVersion resp))
      eqn:Hsame.
    + assert (Hnotless : wabridge.LessThan current (wabridge.ParsedVersion resp)
                         = false).
      { rewrite (proj1 Heq eq_refl).
        destruct (wabridge.ParsedVersion resp) as [[b0 b1] b2]. cbn.
        rewrite !Z.ltb_irrefl, !andb_false_r. reflexivity. }
      assert (Hnotmore : wabridge.LessThan (wabridge.ParsedVersion resp) current
                         = false).
      { destruct (wabridge.LessThan (wabridge.ParsedVersion resp) current)
          eqn:Hmore; [|reflexivity].
        destruct (proj1 Htri eq_refl) as [Hx _]. discriminate Hx. }
      split; [reflexivity|]. split; [reflexivity|]. split.
      * split.
        -- intros (msg & [Hx|[Hx|[]]]); discriminate Hx.
        -- intros [Herr|(resp' & Hresp & Hless & _)]; [discriminate Herr|].
           injection Hresp as Hresp. subst resp'.
           rewrite Hnotless in Hless. discriminate Hless.
      * intros resp' Hresp. injection Hresp as Hresp. subst resp'. split.
        -- rewrite Hnotmore. split; [|discriminate].
           intros [Hx|[Hx|[]]]; discriminate Hx.
        -- split; [intros _; apply Heq; reflexivity|].
           intros _. right. left. reflexivity.
    + assert (Hdiff : current <> wabridge.ParsedVersion resp).
      { intros Hx. apply Heq in Hx. discriminate Hx. }
      destruct (wabridge.LessThan current (wabridge.ParsedVersion resp))
        eqn:Hless.
      * assert (Hnotmore :
                  wabridge.LessThan (wabridge.ParsedVersion resp) current
                  = false).
        { destruct (wabridge.LessThan (wabridge.ParsedVersion resp) current)
            eqn:Hmore; [|reflexivity].
          destruct (proj1 Htri eq_refl) as [_ Hx]. discriminate Hx. }
        destruct (wabridge.IsBelowHard resp || wabridge.IsBroken resp)
          eqn:Hbad; [|destruct (wabridge.IsBelowSoft resp)];
          (split; [reflexivity|]; split; [reflexivity|]; split;
           [ split;
             [ intros (msg & [Hx|[Hx|[]]]);
               first [ discriminate Hx
                     | right; exists resp; repeat split; assumption ]
             | intros [Herr|(resp' & Hresp & _ & Hbad')];
               [ discriminate Herr
               | injection Hresp as Hresp; subst resp';
                 first [ eexists; right; left; reflexivity
                       | rewrite Hbad in Hbad'; discriminate Hbad' ] ] ]
           | intros resp' Hresp; injection Hresp as Hresp; subst resp';
             rewrite Hnotmore; split;
             (split; [ intros [Hx|[Hx|[]]]; discriminate Hx
                     | first [ discriminate | intros Hx; contradiction ] ]) ]).
      * assert (Hmore :
                  wabridge.LessThan (wabridge.ParsedVersion resp) current
                  = true) by (apply Htri; split; reflexivity).
        split; [reflexivity|]. split; [reflexivity|]. split.
        -- split.
           ++ intros (msg & [Hx|[Hx|[]]]); discriminate Hx.
           ++ intros [Herr|(resp' & Hresp & Hless' & _)];
                [discriminate Herr|].
              injection Hresp as Hresp. subst resp'.
              rewrite Hless in Hless'. discriminate Hless'.
        -- intros resp' Hresp. injection Hresp as Hresp. subst resp'. split.
           ++ rewrite Hmore. split; [reflexivity|].
              intros _. right. left. reflexivity.
           ++ split; [|intros Hx; contradiction].
              intros [Hx|[Hx|[]]]; discriminate Hx.
  - split; [reflexivity|]. split; [reflexivity|]. split.
    + split; [intros _; left; reflexivity|].
      intros _. eexists. right. left. reflexivity.
    + intros resp Hresp. discriminate Hresp.
Qed.

Lemma CheckWhatsAppUpdate_report_witness :
  let broken_latest :=
    {| wabridge.IsBroken := true; wabridge.IsBelowSoft := true;
       wabridge.IsBelowHard := true;
       wabridge.ParsedVersion := (2, 2413, 51) |} in
  In (wabridge.Debugf, "Bridge is using latest WhatsApp web protocol")
     (wabridge.CheckWhatsAppUpdate (2, 2413, 51) (inl broken_latest))
  /\ In (wabridge.Debugf,
         "Bridge is using newer than latest WhatsApp web protocol")
        (wabridge.CheckWhatsAppUpdate (2, 2414, 0) (inl broken_latest)).
Proof.
  intros broken_latest. split.
  - destruct (CheckWhatsAppUpdate_report (2, 2413, 51) (inl broken_latest))
      as (_ & _ & _ & Hresp).
    destruct (Hresp broken_latest eq_refl) as [_ Hlatest].
    apply Hlatest. reflexivity.
  - destruct (CheckWhatsAppUpdate_report (2, 2414, 0) (inl broken_latest))
      as (_ & _ & _ & Hresp).
    destruct (Hresp broken_latest eq_refl) as [Hnewer _].
    apply Hnewer. reflexivity.
Defined.

(** ** Inserted puppets and the custom puppets that are started *)

(** X21. A standard user that is inserted with a non-empty custom MXID is
    returned by the next [GetAllWithCustomMXID], after the puppets that were
    returned before; one inserted with an empty custom MXID is not returned.
    (The driver works and the key is new.) *)
Theorem Insert_then_GetAllWithCustomMXID (puppet : Puppet) (w : World) :
  types.Server (JID puppet) = types.DefaultUserServer ->
  faults w = [] ->
  has_user (types.User (JID puppet)) (puppet_table w) = false ->
  fst (GetAllWithCustomMXID (snd (Insert puppet w)))
  = ((fst (fst (GetAllWithCustomMXID w))
      ++ (if is_custom puppet then [roundtrip_image puppet] else []))%list,
     None).
Proof.
  intros Huser Hquiet Hnew.
  rewrite (Insert_accepted puppet w Huser).
  rewrite (Exec_insert_new (sqlVariables puppet) w)
    by (rewrite ?Hquiet; first [reflexivity | exact Hnew]).
  unfold GetAllWithCustomMXID. rewrite !QueryMany_result.
  cbn [snd faults puppet_table]. rewrite Hquiet. cbn [hd tl fst].
  cbn [run_select]. rewrite filter_app, map_app. f_equal. f_equal.
  cbn [filter row_of_vars custom_mxid sqlVariables v_custom_mxid].
  unfold is_custom.
  destruct (negb (String.eqb (CustomMXID puppet) "")); reflexivity.
Qed.

Lemma Insert_then_GetAllWithCustomMXID_witness :
  let double :=
    {| JID := types.NewJID "491700000" types.DefaultUserServer; Avatar := "";
       AvatarURL := id.emptyContentURI; AvatarSet := false;
       Displayname := "Ada"; NameQuality := 50; NameSet := true;
       ContactInfoSet := false; LastSync := time.zero;
       CustomMXID := "@ada:example.org"; AccessToken := "secret";
       NextBatch := ""; EnablePresence := true; EnableReceipts := true;
       FirstActivityTs := 0; LastActivityTs := 0 |} in
  let w := quiet_world [activity_row "491711111" None None] 0 in
  map CustomMXID (fst (fst (GetAllWithCustomMXID (snd (Insert double w)))))
  = ["@ada:example.org"].
Proof.
  intros double w.
  rewrite (Insert_then_GetAllWithCustomMXID double w); reflexivity.
Defined.

(** ** Repeated recomputations and the passing of time *)

Lemma scan_pure_steady (limits : main.Limits) (clk : nat -> Z) (now : Z)
      (rows : list (Z * option Z)) :
  (forall j, clk j = now) ->
  forall (k k' : nat) (v : main.ScanVars),
    scan_pure limits clk k rows v = scan_pure limits clk k' rows v.
Proof.
  intros Hclk. induction rows as [|row rest IH]; intros k k' v;
    [reflexivity|].
  cbn [scan_pure]. rewrite !Hclk. apply IH.
Qed.

(** X22. While the clock reading and the table stay the same and the driver
    works, recomputing again changes nothing: a second run returns the
    snapshot the first run returned. *)
Theorem UpdateActivePuppetCount_idempotent
        (limits : main.Limits) (pa : main.PuppetActivity) (w : World)
        (now : Z) :
  faults w = [] ->
  (forall k, clock w k = now) ->
  let first_run := main.UpdateActivePuppetCount limits pa w in
  fst (fst (main.UpdateActivePuppetCount limits (fst (fst first_run))
                                         (snd first_run)))
  = fst (fst first_run).
Proof.
  intros Hquiet Hclk first_run.
  destruct (UpdateActivePuppetCount_reads_only limits pa w)
    as [Htable Hfaults].
  fold first_run in Htable, Hfaults.
  assert (Hclock : clock (snd first_run) = clock w).
  { subst first_run.
    unfold main.UpdateActivePuppetCount, main.Query_activity.
    unfold bind, Log, next_fault, get_table, ret.
    cbn [faults puppet_table clock ticks journal].
    rewrite Hquiet. cbn [hd]. rewrite scan_loop_pure.
    destruct (main.BlockOnLimitReached limits); reflexivity. }
  assert (Hcount : recomputed_count limits (snd first_run)
                   = recomputed_count limits w).
  { unfold recomputed_count. rewrite Htable, Hclock.
    apply f_equal. apply (scan_pure_steady limits (clock w) now), Hclk. }
  rewrite (UpdateActivePuppetCount_read_success limits _ (snd first_run))
    by (rewrite Hfaults, Hquiet; reflexivity).
  rewrite Hcount. subst first_run.
  rewrite (UpdateActivePuppetCount_read_success limits pa w)
    by (rewrite Hquiet; reflexivity).
  destruct (main.BlockOnLimitReached limits); reflexivity.
Qed.

Lemma UpdateActivePuppetCount_idempotent_witness :
  let limits := {| main.MaxPuppetLimit := 0; main.MinPuppetActiveDays := 1;
                   main.PuppetInactivityDays := 30;
                   main.BlockOnLimitReached := true |} in
  let pa := {| main.currentUserCount := 0; main.isBlocked := false |} in
  let w := quiet_world [activity_row "b" (Some 9000000) (Some 9900000)]
                       10000000 in
  let first_run := main.UpdateActivePuppetCount limits pa w in
  fst (fst (main.UpdateActivePuppetCount limits (fst (fst first_run))
                                         (snd first_run)))
  = {| main.currentUserCount := 1; main.isBlocked := true |}.
Proof.
  intros limits pa w first_run. subst first_run.
  rewrite (UpdateActivePuppetCount_idempotent limits pa w 10000000).
  - reflexivity.
  - reflexivity.
  - intros k. reflexivity.
Defined.

Lemma filter_length_le {A : Type} (P Q : A -> bool) (l : list A) :
  (forall a, In a l -> P a = true -> Q a = true) ->
  (List.length (filter P l) <= List.length (filter Q l))%nat.
Proof.
  induction l as [|a l IH]; intros Himp; [cbn; lia|].
  assert (IH' : (List.length (filter P l) <= List.length (filter Q l))%nat).
  { apply IH. intros x Hx. apply Himp. right. exact Hx. }
  cbn [filter]. destruct (P a) eqn:HP.
  - rewrite (Himp a (or_introl eq_refl) HP). cbn. lia.
  - destruct (Q a); cbn; lia.
Qed.

(** X23. Puppets only age out. Over an unchanged table (whose scanned rows
    carry a last activity, with differences that fit [int64] at both
    readings) a recomputation at a later clock reading never stores a higher
    count than one at an earlier reading. *)
Theorem count_never_grows_with_time
        (limits : main.Limits) (pa : main.PuppetActivity) (t : Table)
        (now later : Z) :
  now <= later ->
  Forall (row_readable now) t ->
  Forall (row_readable later) t ->
  Z.of_nat (List.length t) < 2 ^ 64 ->
  count_after limits pa (quiet_world t later)
  <= count_after limits pa (quiet_world t now).
Proof.
  intros Hlater Hnow Hthen Hfit.
  rewrite !count_after_success by reflexivity.
  rewrite (recomputed_count_rule limits (quiet_world t later) later)
    by first [intros k; reflexivity | assumption].
  rewrite (recomputed_count_rule limits (quiet_world t now) now)
    by first [intros k; reflexivity | assumption].
  unfold spec_active_count. cbn [quiet_world puppet_table].
  apply inj_le. apply filter_length_le. intros r _.
  unfold spec_is_active.
  destruct (first_activity_ts r) as [first|]; [|discriminate].
  destruct (last_activity_ts r) as [last|]; [|discriminate].
  cbn zeta. rewrite !andb_true_iff, !negb_true_iff.
  intros [[Hage Hmin] Hmax]. repeat split; try assumption.
  destruct (Z.gtb_spec (later - last) (main.maxActivityTime limits));
    [discriminate|].
  destruct (Z.gtb_spec (now - last) (main.maxActivityTime limits));
    [lia | reflexivity].
Qed.

Lemma count_never_grows_with_time_witness :
  let limits := {| main.MaxPuppetLimit := 10; main.MinPuppetActiveDays := 1;
                   main.PuppetInactivityDays := 30;
                   main.BlockOnLimitReached := true |} in
  let pa := {| main.currentUserCount := 0; main.isBlocked := false |} in
  let t := [activity_row "b" (Some 9000000) (Some 9900000)] in
  count_after limits pa (quiet_world t 20000000)
  <= count_after limits pa (quiet_world t 10000000).
Proof.
  intros limits pa t.
  apply count_never_grows_with_time.
  - lia.
  - repeat constructor; cbn; unfold Int.is_int64; lia.
  - repeat constructor; cbn; unfold Int.is_int64; lia.
  - cbn. lia.
Defined.
